(** * cextrema: local extrema of a 2D scalar field

    A shallow embedding of [src/cextrema.c] and the properties of its
    scan: classification of interior cells, the coordinate lists and
    their capacity, the frame of the extrema map and memory safety. *)

From Stdlib Require Import ZArith Lia Bool.
From Stdlib Require Import Floats.SpecFloat.
From stdpp Require Import base list.

Local Open Scope Z_scope.

(** ** Machine integers

    [size_t] is a 64-bit unsigned integer, [int] a 32-bit signed one.
    Both are carried as [Z] with the wrap-around written out. *)

Module Mach.

Definition SIZE_MAX : Z := 2 ^ 64 - 1.
Definition INT_MAX : Z := 2 ^ 31 - 1.
Definition INT_MIN : Z := - 2 ^ 31.

(** Arithmetic on [size_t] is modulo [2^64]. *)
Definition size_wrap (z : Z) : Z := z mod 2 ^ 64.

(** Conversion to [int], also the result of [++] on an [int]
    (two's complement). *)
Definition int_wrap (z : Z) : Z := (z + 2 ^ 31) mod 2 ^ 32 - 2 ^ 31.

(** The usual arithmetic conversion of an [int] compared with a
    [size_t]. *)
Definition size_of_int (z : Z) : Z := size_wrap z.

Definition is_size (z : Z) : Prop := 0 <= z <= SIZE_MAX.
Definition is_int (z : Z) : Prop := INT_MIN <= z <= INT_MAX.

(** An array of [n] elements of [elt] bytes each is an object: its
    size in bytes is a [size_t]. *)
Definition fits_object (elt n : Z) : Prop := 0 <= n /\ elt * n <= SIZE_MAX.

End Mach.
Import Mach.

(** ** Floats

    [float] is IEEE 754 binary32: precision 24, maximal exponent 128.
    The comparisons are those of the standard: false on NaN, and the
    two zeros compare equal. *)

Abbreviation float := spec_float.

Definition float_lt (a b : float) : bool := SFltb a b.
Definition float_gt (a b : float) : bool := SFltb b a.

(** The values the scan stores in the extrema map: [1] and [-1]
    converted to [float]. *)
Definition f_one : float := Eval cbv in SFone 24 128.
Definition f_minus_one : float := Eval cbv in SFopp (SFone 24 128).
Definition f_zero : float := S754_zero false.

(** ** Arrays

    A buffer is a list; an access outside of it is a fault, [None]. *)

Definition in_bounds {A} (a : list A) (idx : Z) : bool :=
  (0 <=? idx) && (idx <? Z.of_nat (length a)).

Definition load {A} (a : list A) (idx : Z) : option A :=
  if in_bounds a idx then a !! Z.to_nat idx else None.

Definition store {A} (a : list A) (idx : Z) (v : A) : option (list A) :=
  if in_bounds a idx then Some (<[Z.to_nat idx := v]> a) else None.

(** ** State

    [data] is read only and is a parameter of the scan; it shares no
    cell with the buffers the scan writes.

    The state holds the buffers the scan writes, its two reference
    parameters, and [min_index]. The source uses [min_index] in its
    minima branch and declares it nowhere: it is a variable of the
    enclosing scope, taken here with the type [int] of its sibling
    [maxima_length] and with whatever value the state holds on entry.

    [trace] is the log of the stores performed, oldest first. *)

Inductive event : Type :=
  | Store_extrema (idx : Z) (v : float)
  | Store_maxima_x (k v : Z)
  | Store_maxima_y (k v : Z)
  | Store_minima_x (k v : Z)
  | Store_minima_y (k v : Z).

Record state : Type := mkState {
  extrema : list float;
  maxima_x : list Z;
  maxima_y : list Z;
  minima_x : list Z;
  minima_y : list Z;
  maxima_length : Z;
  minima_length : Z;
  min_index : Z;
  trace : list event
}.

Definition log (e : event) (st : state) : list event := trace st ++ [e].

Definition store_extrema (idx : Z) (v : float) (st : state) : option state :=
  a ← store (extrema st) idx v;
  Some (mkState a (maxima_x st) (maxima_y st) (minima_x st) (minima_y st)
          (maxima_length st) (minima_length st) (min_index st)
          (log (Store_extrema idx v) st)).

Definition store_maxima_x (k v : Z) (st : state) : option state :=
  a ← store (maxima_x st) k v;
  Some (mkState (extrema st) a (maxima_y st) (minima_x st) (minima_y st)
          (maxima_length st) (minima_length st) (min_index st)
          (log (Store_maxima_x k v) st)).

Definition store_maxima_y (k v : Z) (st : state) : option state :=
  a ← store (maxima_y st) k v;
  Some (mkState (extrema st) (maxima_x st) a (minima_x st) (minima_y st)
          (maxima_length st) (minima_length st) (min_index st)
          (log (Store_maxima_y k v) st)).

Definition store_minima_x (k v : Z) (st : state) : option state :=
  a ← store (minima_x st) k v;
  Some (mkState (extrema st) (maxima_x st) (maxima_y st) a (minima_y st)
          (maxima_length st) (minima_length st) (min_index st)
          (log (Store_minima_x k v) st)).

Definition store_minima_y (k v : Z) (st : state) : option state :=
  a ← store (minima_y st) k v;
  Some (mkState (extrema st) (maxima_x st) (maxima_y st) (minima_x st) a
          (maxima_length st) (minima_length st) (min_index st)
          (log (Store_minima_y k v) st)).

Definition set_maxima_length (n : Z) (st : state) : state :=
  mkState (extrema st) (maxima_x st) (maxima_y st) (minima_x st) (minima_y st)
    n (minima_length st) (min_index st) (trace st).

Definition set_minima_length (n : Z) (st : state) : state :=
  mkState (extrema st) (maxima_x st) (maxima_y st) (minima_x st) (minima_y st)
    (maxima_length st) n (min_index st) (trace st).

Definition set_min_index (n : Z) (st : state) : state :=
  mkState (extrema st) (maxima_x st) (maxima_y st) (minima_x st) (minima_y st)
    (maxima_length st) (minima_length st) n (trace st).

(** ** Loops

    [for (i = lo; i < hi; ++i) body]: the body runs for
    [i = lo, lo+1, ..., hi-1], none at all when [hi <= lo], and a fault
    in the body ends the run. Within the loop [i < hi <= SIZE_MAX], so
    [++i] does not wrap. *)

Fixpoint for_loop {A} (n : nat) (i : Z) (body : Z → A → option A) (a : A)
  : option A :=
  match n with
  | O => Some a
  | S n' =>
      match body i a with
      | Some a' => for_loop n' (i + 1) body a'
      | None => None
      end
  end.

Definition for_range {A} (lo hi : Z) (body : Z → A → option A) (a : A)
  : option A :=
  for_loop (Z.to_nat (hi - lo)) lo body a.

(** ** The scan *)

Section Scan.

Variable data : list float.
Variables imax jmax min_max_length : Z.

(** Lines 38-45: one cell of the 3x3 block against the centre. *)
Definition compare_cell (data_val : float) (inner_i inner_j : Z)
    (flags : bool * bool) : option (bool * bool) :=
  let '(is_max, is_min) := flags in
  v ← load data (size_wrap (inner_i * jmax + inner_j));
  let is_max := if float_gt v data_val then false else is_max in
  w ← load data (size_wrap (inner_i * jmax + inner_j));
  let is_min := if float_lt w data_val then false else is_min in
  Some (is_max, is_min).

(** Lines 30-47: the two flags after the 3x3 block. *)
Definition neighbourhood (i j : Z) (data_val : float)
  : option (bool * bool) :=
  for_range (size_wrap (i - 1)) (size_wrap (i + 2))
    (λ inner_i flags,
       for_range (size_wrap (j - 1)) (size_wrap (j + 2))
         (λ inner_j flags, compare_cell data_val inner_i inner_j flags)
         flags)
    (true, true).

(** Lines 49-58. *)
Definition maximum_branch (i j : Z) (st : state) : option state :=
  st ← store_extrema (size_wrap (i * jmax + j)) f_one st;
  if size_of_int (maxima_length st) <? min_max_length then
    st ← store_maxima_x (maxima_length st) (int_wrap i) st;
    st ← store_maxima_y (maxima_length st) (int_wrap j) st;
    Some (set_maxima_length (int_wrap (maxima_length st + 1)) st)
  else Some st.

(** Lines 59-68. *)
Definition minimum_branch (i j : Z) (st : state) : option state :=
  if size_of_int (min_index st) <? min_max_length then
    st ← store_extrema (size_wrap (i * jmax + j)) f_minus_one st;
    st ← store_minima_x (min_index st) (int_wrap i) st;
    st ← store_minima_y (min_index st) (int_wrap j) st;
    Some (set_min_index (int_wrap (min_index st + 1)) st)
  else Some st.

(** Lines 30-68: the body of the inner loop, at cell [(i, j)]. *)
Definition visit (i j : Z) (st : state) : option state :=
  data_val ← load data (size_wrap (i * jmax + j));
  match neighbourhood i j data_val with
  | Some (is_max, is_min) =>
      if is_max then maximum_branch i j st
      else if is_min then minimum_branch i j st
      else Some st
  | None => None
  end.

Definition scan_row (i : Z) (st : state) : option state :=
  for_range 1 (size_wrap (jmax - 1)) (visit i) st.

(** Lines 23-70. *)
Definition cextrema (st : state) : option state :=
  let st := set_maxima_length 0 st in
  let st := set_minima_length 0 st in
  for_range 1 (size_wrap (imax - 1)) scan_row st.

End Scan.

(** ** Callers' buffers *)

(** Outputs as a caller hands them over to a first call: a zeroed map
    of [n] cells, four zeroed lists of [m] slots, zeroed counters, and
    [min_index] at 0. *)
Definition fresh (n m : nat) : state :=
  mkState (replicate n f_zero) (replicate m 0) (replicate m 0)
    (replicate m 0) (replicate m 0) 0 0 0 [].

(** Outputs zeroed afresh for a further call: the caller zeroes the
    arguments of the call, that is the map, the lists and the two
    reference counters. [min_index] is no argument: it is left as the
    previous call left it. *)
Definition rezero_arguments (st : state) : state :=
  mkState (replicate (length (extrema st)) f_zero)
    (replicate (length (maxima_x st)) 0) (replicate (length (maxima_y st)) 0)
    (replicate (length (minima_x st)) 0) (replicate (length (minima_y st)) 0)
    0 0 (min_index st) [].

(** Grids of the examples. *)
Definition f_of_Z (z : Z) : float :=
  match z with
  | Z0 => f_zero
  | Zpos _ => f_one
  | Zneg _ => f_minus_one
  end.

Definition grid_of (l : list Z) : list float := f_of_Z <$> l.


(** ** Vocabulary of the properties *)

Section Vocabulary.

Variable data : list float.
Variables imax jmax min_max_length : Z.

(** [grid i j]: the sample of row [i], column [j] (row-major). *)
Definition grid (i j : Z) : option float := load data (i * jmax + j).

(** Cells with a complete 3x3 block, and the outer ring. *)
Definition interior (i j : Z) : Prop :=
  1 <= i <= imax - 2 ∧ 1 <= j <= jmax - 2.

Definition on_boundary (i j : Z) : Prop :=
  0 <= i < imax ∧ 0 <= j < jmax ∧
  (i = 0 ∨ i = imax - 1 ∨ j = 0 ∨ j = jmax - 1).

(** No cell of the 3x3 block of [(i, j)] is strictly greater
    (strictly smaller) than its centre. *)
Definition no_greater (i j : Z) : Prop :=
  ∀ di dj c v, -1 <= di <= 1 → -1 <= dj <= 1 →
    grid i j = Some c → grid (i + di) (j + dj) = Some v →
    float_gt v c = false.

Definition no_smaller (i j : Z) : Prop :=
  ∀ di dj c v, -1 <= di <= 1 → -1 <= dj <= 1 →
    grid i j = Some c → grid (i + di) (j + dj) = Some v →
    float_lt v c = false.

(** The scan stored [v] in the map cell of [(i, j)]. *)
Definition sets (tr : list event) (i j : Z) (v : float) : Prop :=
  Store_extrema (i * jmax + j) v ∈ tr.

(** The scan wrote [(i, j)] into a slot of a coordinate list. *)
Definition appended_max (tr : list event) (i j : Z) : Prop :=
  ∃ k, Store_maxima_x k i ∈ tr ∧ Store_maxima_y k j ∈ tr.

Definition appended_min (tr : list event) (i j : Z) : Prop :=
  ∃ k, Store_minima_x k i ∈ tr ∧ Store_minima_y k j ∈ tr.

(** A grid of [imax] rows and [jmax] columns of [float] (4 bytes),
    in a buffer that holds it. The source receives bare pointers: the
    size of a buffer is what its caller allocated. *)
Definition grid_ok : Prop :=
  3 <= imax ∧ 3 <= jmax ∧ fits_object 4 (imax * jmax) ∧
  imax * jmax <= Z.of_nat (length data).

(** Outputs that hold what is declared: a map of [imax * jmax] cells,
    four lists of [min_max_length] slots of [int] (4 bytes), an [int]
    [min_index], and nothing logged yet. *)
Definition room (st : state) : Prop :=
  imax * jmax <= Z.of_nat (length (extrema st)) ∧
  min_max_length <= Z.of_nat (length (maxima_x st)) ∧
  min_max_length <= Z.of_nat (length (maxima_y st)) ∧
  min_max_length <= Z.of_nat (length (minima_x st)) ∧
  min_max_length <= Z.of_nat (length (minima_y st)).

Definition outputs_ok (st : state) : Prop :=
  room st ∧ fits_object 4 min_max_length ∧ is_int (min_index st) ∧
  trace st = [].

(** A store inside the declared extent of its buffer. *)
Definition event_ok (e : event) : Prop :=
  match e with
  | Store_extrema idx _ => 0 <= idx < imax * jmax
  | Store_maxima_x k _ | Store_maxima_y k _
  | Store_minima_x k _ | Store_minima_y k _ => 0 <= k < min_max_length
  end.

End Vocabulary.

(** Entries written to a list: one per store into its x array. *)
Definition is_maxima_entry (e : event) : bool :=
  match e with Store_maxima_x _ _ => true | _ => false end.

Definition is_minima_entry (e : event) : bool :=
  match e with Store_minima_x _ _ => true | _ => false end.

Definition maxima_written (tr : list event) : Z :=
  Z.of_nat (length (filter (λ e, is_maxima_entry e = true) tr)).

Definition minima_written (tr : list event) : Z :=
  Z.of_nat (length (filter (λ e, is_minima_entry e = true) tr)).

(** The map stores of a log, replayed on a map. *)
Definition replay_event (e : event) (m : list float) : list float :=
  match e with
  | Store_extrema idx v => <[Z.to_nat idx := v]> m
  | _ => m
  end.

Definition replay (tr : list event) (m : list float) : list float :=
  foldl (λ m e, replay_event e m) m tr.

(** The cells visited before [(i, j)] in a block of columns
    [lj .. hj-1] starting at row [li]. *)
Definition before (li lj hj i j a b : Z) : Prop :=
  li <= a ∧ lj <= b < hj ∧ (a < i ∨ (a = i ∧ b < j)).

(** Invariant of the 3x3 loops: the two flags against the cells seen
    so far, [c] being the centre. *)
Definition flags_inv (data : list float) (jmax : Z) (c : float)
    (seen : Z → Z → Prop) (flags : bool * bool) : Prop :=
  (flags.1 = true ↔
     ∀ a b v, seen a b → grid data jmax a b = Some v → float_gt v c = false) ∧
  (flags.2 = true ↔
     ∀ a b v, seen a b → grid data jmax a b = Some v → float_lt v c = false).

(** ** The effect of one visit

    The states a visit can end in, written out, and the relation between
    the state before a visit, its two flags and the state after it. *)

Section Step.

Variable jmax min_max_length : Z.

(** Line 51 (resp. 63): the map cell is stored. *)
Definition marked (v : float) (i j : Z) (st : state) : state :=
  let idx := size_wrap (i * jmax + j) in
  mkState (<[Z.to_nat idx := v]> (extrema st))
    (maxima_x st) (maxima_y st) (minima_x st) (minima_y st)
    (maxima_length st) (minima_length st) (min_index st)
    (trace st ++ [Store_extrema idx v]).

(** Lines 54-56. *)
Definition maximum_appended (i j : Z) (st : state) : state :=
  let k := maxima_length st in
  mkState (extrema st)
    (<[Z.to_nat k := int_wrap i]> (maxima_x st))
    (<[Z.to_nat k := int_wrap j]> (maxima_y st))
    (minima_x st) (minima_y st)
    (int_wrap (k + 1)) (minima_length st) (min_index st)
    ((trace st ++ [Store_maxima_x k (int_wrap i)])
       ++ [Store_maxima_y k (int_wrap j)]).

(** Lines 64-66. *)
Definition minimum_appended (i j : Z) (st : state) : state :=
  let k := min_index st in
  mkState (extrema st) (maxima_x st) (maxima_y st)
    (<[Z.to_nat k := int_wrap i]> (minima_x st))
    (<[Z.to_nat k := int_wrap j]> (minima_y st))
    (maxima_length st) (minima_length st) (int_wrap (k + 1))
    ((trace st ++ [Store_minima_x k (int_wrap i)])
       ++ [Store_minima_y k (int_wrap j)]).

Definition slot {A} (a : list A) (k : Z) : Prop :=
  0 <= k < Z.of_nat (length a).

Inductive step (i j : Z) (st : state) : bool → bool → state → Prop :=
  | step_maximum_appended is_min :
      slot (extrema st) (size_wrap (i * jmax + j)) →
      (size_of_int (maxima_length st) <? min_max_length) = true →
      slot (maxima_x st) (maxima_length st) →
      slot (maxima_y st) (maxima_length st) →
      step i j st true is_min (maximum_appended i j (marked f_one i j st))
  | step_maximum_full is_min :
      slot (extrema st) (size_wrap (i * jmax + j)) →
      (size_of_int (maxima_length st) <? min_max_length) = false →
      step i j st true is_min (marked f_one i j st)
  | step_minimum_appended :
      (size_of_int (min_index st) <? min_max_length) = true →
      slot (extrema st) (size_wrap (i * jmax + j)) →
      slot (minima_x st) (min_index st) →
      slot (minima_y st) (min_index st) →
      step i j st false true (minimum_appended i j (marked f_minus_one i j st))
  | step_minimum_full :
      (size_of_int (min_index st) <? min_max_length) = false →
      step i j st false true st
  | step_neither :
      step i j st false false st.

End Step.

(** The state when the loops start: lines 23-24. *)
Definition on_entry (st : state) : state :=
  set_minima_length 0 (set_maxima_length 0 st).

(** The sizes of the five output buffers. *)
Definition sizes (st : state) : nat * nat * nat * nat * nat :=
  (length (extrema st), length (maxima_x st), length (maxima_y st),
   length (minima_x st), length (minima_y st)).

(** The two list counters hold [int] values. *)
Definition counters_ok (st : state) : Prop :=
  is_int (maxima_length st) ∧ is_int (min_index st).

(** ** Invariants of the log *)

Section LogInvariants.

Variable data : list float.
Variables imax jmax : Z.

(** The value stored for a cell agrees with its 3x3 block; the
    maximum is tried first. *)
Definition classified (v : float) (a b : Z) : Prop :=
  (v = f_one ∧ no_greater data jmax a b) ∨
  (v = f_minus_one ∧ ¬ no_greater data jmax a b ∧ no_smaller data jmax a b).

(** Every map store is that of an interior cell, with its class. *)
Definition map_events_ok (tr : list event) : Prop :=
  ∀ idx v, Store_extrema idx v ∈ tr →
    ∃ a b, interior imax jmax a b ∧ idx = a * jmax + b ∧ classified v a b.

(** The slots of the maxima (minima) list used so far lie below the
    counter [n], unless the counter went negative. *)
Definition maxima_slots (tr : list event) (n : Z) : Prop :=
  ∀ k v, Store_maxima_x k v ∈ tr ∨ Store_maxima_y k v ∈ tr →
    0 <= k ∧ (k < n ∨ n < 0).

Definition minima_slots (tr : list event) (n : Z) : Prop :=
  ∀ k v, Store_minima_x k v ∈ tr ∨ Store_minima_y k v ∈ tr →
    0 <= k ∧ (k < n ∨ n < 0).

(** The two halves of a list entry are the coordinates of one
    interior cell, stored with the sign of the list. *)
Definition maxima_pairs (tr : list event) : Prop :=
  ∀ k x y, Store_maxima_x k x ∈ tr → Store_maxima_y k y ∈ tr →
    ∃ a b, interior imax jmax a b ∧ x = int_wrap a ∧ y = int_wrap b ∧
           sets jmax tr a b f_one.

Definition minima_pairs (tr : list event) : Prop :=
  ∀ k x y, Store_minima_x k x ∈ tr → Store_minima_y k y ∈ tr →
    ∃ a b, interior imax jmax a b ∧ x = int_wrap a ∧ y = int_wrap b ∧
           sets jmax tr a b f_minus_one.

(** The cells stored with [v] have an entry in the maxima (minima)
    list. *)
Definition maxima_listed (tr : list event) : Prop :=
  ∀ idx, Store_extrema idx f_one ∈ tr →
    ∃ a b, interior imax jmax a b ∧ idx = a * jmax + b ∧
           appended_max tr (int_wrap a) (int_wrap b).

Definition minima_listed (tr : list event) : Prop :=
  ∀ idx, Store_extrema idx f_minus_one ∈ tr →
    ∃ a b, interior imax jmax a b ∧ idx = a * jmax + b ∧
           appended_min tr (int_wrap a) (int_wrap b).

End LogInvariants.

(** ** The failure semantics of the specification

    The source has no error result. This is the check the specification
    words, kept apart from the code to compare the two: dimensions,
    then buffers, then capacity. A buffer that is absent has size 0. *)

Inductive scan_error : Type :=
  | InvalidDimensions
  | NullOrMismatchedBuffer
  | InvalidCapacity.

Definition spec_failure (rows cols capacity grid_size map_size : Z)
  : option scan_error :=
  if (rows <? 3) || (cols <? 3) then Some InvalidDimensions
  else if negb (grid_size =? rows * cols) || negb (map_size =? rows * cols)
  then Some NullOrMismatchedBuffer
  else if capacity <? 0 then Some InvalidCapacity
  else None.

(** ** Sample grids *)

(** 3x3, a peak (resp. a pit) in the middle. *)
Definition peak_3x3 : list float := grid_of [0; 0; 0;  0; 1; 0;  0; 0; 0].
Definition pit_3x3 : list float := grid_of [0; 0; 0;  0; -1; 0;  0; 0; 0].

(** 3 rows of 4 columns, flat: two interior cells. *)
Definition flat_3x4 : list float := replicate 12 f_zero.

(** 2 rows of 3 columns: no interior. *)
Definition pit_2x3 : list float := grid_of [0; 0; 0;  0; -1; 0].

(** Row-major order of two cells: the order of the visits. *)
Definition scan_order (x y x' y' : Z) : Prop := x < x' ∨ (x = x' ∧ y < y').

(** Map stores of [+1] in a log, counted. *)
Definition is_maximum_store (e : event) : bool :=
  match e with Store_extrema _ v => SFeqb v f_one | _ => false end.

Definition maxima_marked (tr : list event) : Z :=
  Z.of_nat (length (filter (λ e, is_maximum_store e = true) tr)).

(** ** Machine arithmetic *)

Lemma size_wrap_small z : 0 <= z <= SIZE_MAX → size_wrap z = z.
Proof. unfold size_wrap, SIZE_MAX. intros H. apply Z.mod_small. lia. Qed.

Lemma int_wrap_small z : is_int z → int_wrap z = z.
Proof.
  unfold is_int, int_wrap, INT_MIN, INT_MAX. intros H.
  rewrite Z.mod_small; lia.
Qed.

Lemma int_wrap_is_int z : is_int (int_wrap z).
Proof.
  unfold is_int, int_wrap, INT_MIN, INT_MAX.
  pose proof (Z.mod_pos_bound (z + 2 ^ 31) (2 ^ 32) ltac:(lia)). lia.
Qed.

(** After [++], an [int] counter is one more, or negative. *)
Lemma int_wrap_succ z :
  is_int z → int_wrap (z + 1) = z + 1 ∨ int_wrap (z + 1) < 0.
Proof.
  intros Hz. destruct (Z.eq_dec z INT_MAX) as [->|Hne].
  - right. vm_compute. reflexivity.
  - left. apply int_wrap_small. unfold is_int, INT_MIN, INT_MAX in *. lia.
Qed.

(** A non-negative [int] compares with a [size_t] as itself. *)
Lemma size_of_int_nonneg z : is_int z → 0 <= z → size_of_int z = z.
Proof.
  unfold size_of_int, is_int, INT_MIN, INT_MAX. intros H H0.
  apply size_wrap_small. unfold SIZE_MAX. lia.
Qed.

(** A negative [int] converts to a [size_t] above every object size. *)
Lemma size_of_int_neg z : is_int z → z < 0 → 2 ^ 64 - 2 ^ 31 <= size_of_int z.
Proof.
  unfold size_of_int, size_wrap, is_int, INT_MIN, INT_MAX. intros H H0.
  replace z with (z + 2 ^ 64 + (-1) * 2 ^ 64) by lia.
  rewrite Z.mod_add by lia. rewrite Z.mod_small; lia.
Qed.

(** The guard of an append, on an array of [int]: the counter is a
    slot of the array. *)
Lemma guard_slot z cap :
  is_int z → fits_object 4 cap → (size_of_int z <? cap) = true →
  0 <= z < cap.
Proof.
  intros Hz [H0 Hc] Hg. apply Z.ltb_lt in Hg. unfold SIZE_MAX in Hc.
  destruct (Z_lt_le_dec z 0) as [Hneg|Hpos].
  - pose proof (size_of_int_neg z Hz Hneg). lia.
  - rewrite size_of_int_nonneg in Hg by done. lia.
Qed.

(** ** Arrays *)

Lemma in_bounds_true {A} (a : list A) idx :
  in_bounds a idx = true ↔ 0 <= idx < Z.of_nat (length a).
Proof. unfold in_bounds. rewrite andb_true_iff, Z.leb_le, Z.ltb_lt. tauto. Qed.

Lemma load_Some {A} (a : list A) idx v :
  load a idx = Some v → 0 <= idx < Z.of_nat (length a).
Proof.
  unfold load. destruct (in_bounds a idx) eqn:E; [|discriminate].
  intros _. by apply in_bounds_true.
Qed.

Lemma load_in_bounds {A} (a : list A) idx :
  0 <= idx < Z.of_nat (length a) → ∃ v, load a idx = Some v.
Proof.
  intros H. unfold load. rewrite (proj2 (in_bounds_true a idx) H).
  apply lookup_lt_is_Some. lia.
Qed.

Lemma load_None {A} (a : list A) idx :
  load a idx = None ↔ ¬ (0 <= idx < Z.of_nat (length a)).
Proof.
  split.
  - intros E H. destruct (load_in_bounds a idx H) as [v Hv]. congruence.
  - intros H. destruct (load a idx) eqn:E; [|done].
    apply load_Some in E. contradiction.
Qed.

Lemma store_Some {A} (a a' : list A) idx v :
  store a idx v = Some a' ↔
  0 <= idx < Z.of_nat (length a) ∧ a' = <[Z.to_nat idx := v]> a.
Proof.
  unfold store. destruct (in_bounds a idx) eqn:E.
  - apply in_bounds_true in E. split; [intros [= <-]; done|intros [_ ->]; done].
  - split; [discriminate|]. intros [H _].
    apply in_bounds_true in H. congruence.
Qed.

Lemma store_in_bounds {A} (a : list A) idx v :
  0 <= idx < Z.of_nat (length a) →
  store a idx v = Some (<[Z.to_nat idx := v]> a).
Proof. intros H. by apply store_Some. Qed.

(** ** Loops *)

Lemma for_range_empty {A} lo hi (body : Z → A → option A) a :
  hi <= lo → for_range lo hi body a = Some a.
Proof.
  intros H. unfold for_range.
  replace (Z.to_nat (hi - lo)) with O by lia. reflexivity.
Qed.

(** Invariant rule: whatever the body preserves holds at the exit. *)
Lemma for_loop_inv {A} (P : Z → A → Prop) (body : Z → A → option A) n :
  ∀ lo a a',
    P lo a →
    (∀ i x x', lo <= i < lo + Z.of_nat n → P i x → body i x = Some x' →
               P (i + 1) x') →
    for_loop n lo body a = Some a' →
    P (lo + Z.of_nat n) a'.
Proof.
  induction n as [|n IH]; intros lo a a' H0 Hstep Hrun; simpl in Hrun.
  - injection Hrun as <-. by replace (lo + Z.of_nat 0) with lo by lia.
  - destruct (body lo a) as [a1|] eqn:E; [|discriminate].
    replace (lo + Z.of_nat (S n)) with (lo + 1 + Z.of_nat n) by lia.
    apply (IH (lo + 1) a1 a'); [| |exact Hrun].
    + apply (Hstep lo a a1); [lia|done|done].
    + intros i x x' Hi. apply Hstep. lia.
Qed.

(** Total form: a body that succeeds under the invariant makes the loop
    succeed. *)
Lemma for_loop_total {A} (P : Z → A → Prop) (body : Z → A → option A) n :
  ∀ lo a,
    P lo a →
    (∀ i x, lo <= i < lo + Z.of_nat n → P i x →
            ∃ x', body i x = Some x' ∧ P (i + 1) x') →
    ∃ a', for_loop n lo body a = Some a' ∧ P (lo + Z.of_nat n) a'.
Proof.
  induction n as [|n IH]; intros lo a H0 Hstep; simpl.
  - exists a. by replace (lo + Z.of_nat 0) with lo by lia.
  - destruct (Hstep lo a) as (a1 & E & H1); [lia|done|]. rewrite E.
    replace (lo + Z.of_nat (S n)) with (lo + 1 + Z.of_nat n) by lia.
    apply IH; [done|]. intros i x Hi. apply Hstep. lia.
Qed.

Lemma for_range_inv {A} (P : Z → A → Prop) (body : Z → A → option A)
    lo hi a a' :
  lo <= hi →
  P lo a →
  (∀ i x x', lo <= i < hi → P i x → body i x = Some x' → P (i + 1) x') →
  for_range lo hi body a = Some a' →
  P hi a'.
Proof.
  intros Hle H0 Hstep Hrun. unfold for_range in Hrun.
  assert (Hhi : lo + Z.of_nat (Z.to_nat (hi - lo)) = hi) by lia.
  rewrite <- Hhi.
  eapply for_loop_inv; [exact H0| |exact Hrun].
  intros i x x' Hi. apply Hstep. lia.
Qed.

Lemma for_range_total {A} (P : Z → A → Prop) (body : Z → A → option A)
    lo hi a :
  lo <= hi →
  P lo a →
  (∀ i x, lo <= i < hi → P i x → ∃ x', body i x = Some x' ∧ P (i + 1) x') →
  ∃ a', for_range lo hi body a = Some a' ∧ P hi a'.
Proof.
  intros Hle H0 Hstep. unfold for_range.
  assert (Hhi : lo + Z.of_nat (Z.to_nat (hi - lo)) = hi) by lia.
  destruct (for_loop_total P body (Z.to_nat (hi - lo)) lo a H0)
    as (a' & E & Ha').
  - intros i x Hi. apply Hstep. lia.
  - exists a'. rewrite Hhi in Ha'. by split.
Qed.

(** Two nested loops over a block of cells, visited row by row.
    [P i j x]: [x] is the state when the scan is about to visit
    [(i, j)]; the end of a row is the start of the next. *)
Section Nested.

Context {A : Type}.
Variable P : Z → Z → A → Prop.
Variable body : Z → Z → A → option A.
Variables li hi lj hj : Z.
Hypothesis Hrows : li <= hi.
Hypothesis Hcols : lj <= hj.
Hypothesis next_row : ∀ i x, li <= i < hi → P i hj x → P (i + 1) lj x.

Lemma nested_inv a a' :
  P li lj a →
  (∀ i j x x', li <= i < hi → lj <= j < hj → P i j x →
               body i j x = Some x' → P i (j + 1) x') →
  for_range li hi (λ i, for_range lj hj (body i)) a = Some a' →
  P hi lj a'.
Proof using Hrows Hcols next_row.
  intros H0 Hstep Hrun.
  eapply (for_range_inv (λ i x, P i lj x)); [done|done| |exact Hrun].
  intros i x x' Hi Hx Hrow. apply next_row; [done|].
  eapply (for_range_inv (λ j y, P i j y)); [done|exact Hx| |exact Hrow].
  intros j y y' Hj. by apply Hstep.
Qed.

Lemma nested_total a :
  P li lj a →
  (∀ i j x, li <= i < hi → lj <= j < hj → P i j x →
            ∃ x', body i j x = Some x' ∧ P i (j + 1) x') →
  ∃ a', for_range li hi (λ i, for_range lj hj (body i)) a = Some a' ∧
        P hi lj a'.
Proof using Hrows Hcols next_row.
  intros H0 Hstep.
  apply (for_range_total (λ i x, P i lj x)); [done|done|].
  intros i x Hi Hx.
  destruct (for_range_total (λ j y, P i j y) (body i) lj hj x)
    as (x' & E & Hx'); [done|done| |].
  - intros j y Hj. by apply Hstep.
  - exists x'. split; [done|]. by apply next_row.
Qed.

End Nested.


Lemma before_start li lj hj a b : ¬ before li lj hj li lj a b.
Proof. unfold before. lia. Qed.

Lemma before_next_row li lj hj i a b :
  before li lj hj i hj a b ↔ before li lj hj (i + 1) lj a b.
Proof. unfold before. lia. Qed.

Lemma before_step li lj hj i j a b :
  lj <= j < hj → li <= i →
  before li lj hj i (j + 1) a b ↔
  before li lj hj i j a b ∨ (a = i ∧ b = j).
Proof. unfold before. lia. Qed.

Lemma before_end li lj hj hi a b :
  before li lj hj hi lj a b ↔ li <= a < hi ∧ lj <= b < hj.
Proof. unfold before. lia. Qed.

(** ** The grid and the 3x3 block *)

Section Grid.

Variable data : list float.
Variables imax jmax : Z.
Hypothesis Hgrid : grid_ok data imax jmax.

Lemma cell_index_range i j :
  0 <= i < imax → 0 <= j < jmax →
  0 <= i * jmax + j < imax * jmax ∧ i * jmax + j <= SIZE_MAX.
Proof using Hgrid.
  destruct Hgrid as (Hi & Hj & [_ Hfit] & _). intros H1 H2.
  assert (i * jmax + j < imax * jmax) by nia.
  split; [nia|lia].
Qed.

Lemma cell_index_wrap i j :
  0 <= i < imax → 0 <= j < jmax →
  size_wrap (i * jmax + j) = i * jmax + j.
Proof using Hgrid.
  intros H1 H2. destruct (cell_index_range i j H1 H2).
  apply size_wrap_small. lia.
Qed.

Lemma cell_index_inj i j i' j' :
  0 <= j < jmax → 0 <= j' < jmax →
  i * jmax + j = i' * jmax + j' → i = i' ∧ j = j'.
Proof. intros H1 H2 E. assert (i = i') by nia. subst. lia. Qed.

Lemma grid_Some i j :
  0 <= i < imax → 0 <= j < jmax → ∃ v, grid data jmax i j = Some v.
Proof using Hgrid.
  intros H1 H2. apply load_in_bounds.
  destruct (cell_index_range i j H1 H2) as [H _].
  destruct Hgrid as (_ & _ & _ & Hlen). lia.
Qed.

Lemma rows_bound : size_wrap (imax - 1) = imax - 1.
Proof using Hgrid.
  destruct Hgrid as (Hi & Hj & [_ Hfit] & _).
  apply size_wrap_small. nia.
Qed.

Lemma cols_bound : size_wrap (jmax - 1) = jmax - 1.
Proof using Hgrid.
  destruct Hgrid as (Hi & Hj & [_ Hfit] & _).
  apply size_wrap_small. nia.
Qed.

Lemma row_small i : 0 <= i <= imax → size_wrap i = i.
Proof using Hgrid.
  destruct Hgrid as (Hi & Hj & [_ Hfit] & _). intros H.
  apply size_wrap_small. nia.
Qed.

Lemma col_small j : 0 <= j <= jmax → size_wrap j = j.
Proof using Hgrid.
  destruct Hgrid as (Hi & Hj & [_ Hfit] & _). intros H.
  apply size_wrap_small. nia.
Qed.

(** One comparison keeps the invariant of the flags. *)
Lemma compare_cell_spec c a b seen flags :
  0 <= a < imax → 0 <= b < jmax →
  flags_inv data jmax c seen flags →
  ∃ flags', compare_cell data jmax c a b flags = Some flags' ∧
    flags_inv data jmax c (λ x y, seen x y ∨ (x = a ∧ y = b)) flags'.
Proof using Hgrid.
  intros Ha Hb [Hmax Hmin]. destruct flags as [fmax fmin]; simpl in *.
  destruct (grid_Some a b Ha Hb) as [v Hv].
  unfold compare_cell. rewrite (cell_index_wrap a b Ha Hb).
  unfold grid in Hv. rewrite Hv. simpl.
  eexists; split; [reflexivity|]. split; simpl.
  - destruct (float_gt v c) eqn:G.
    + split; [discriminate|]. intros H.
      rewrite (H a b v) in G; [discriminate|by right|done].
    + rewrite Hmax. split.
      * intros H x y w [Hs|[-> ->]] Hw; [by eapply H|].
        unfold grid in Hw. congruence.
      * intros H x y w Hs. apply H. by left.
  - destruct (float_lt v c) eqn:G.
    + split; [discriminate|]. intros H.
      rewrite (H a b v) in G; [discriminate|by right|done].
    + rewrite Hmin. split.
      * intros H x y w [Hs|[-> ->]] Hw; [by eapply H|].
        unfold grid in Hw. congruence.
      * intros H x y w Hs. apply H. by left.
Qed.

Lemma flags_inv_ext c seen seen' flags :
  (∀ a b, seen a b ↔ seen' a b) →
  flags_inv data jmax c seen flags → flags_inv data jmax c seen' flags.
Proof.
  intros Hext [Hmax Hmin]. split.
  - rewrite Hmax. split; intros H a b v Hs; apply H; by apply Hext.
  - rewrite Hmin. split; intros H a b v Hs; apply H; by apply Hext.
Qed.

(** The flags after the 3x3 block of an interior cell. *)
Lemma neighbourhood_spec i j c :
  interior imax jmax i j → grid data jmax i j = Some c →
  ∃ is_max is_min,
    neighbourhood data jmax i j c = Some (is_max, is_min) ∧
    (is_max = true ↔ no_greater data jmax i j) ∧
    (is_min = true ↔ no_smaller data jmax i j).
Proof using Hgrid.
  intros [Hi Hj] Hc. unfold neighbourhood.
  rewrite (row_small (i - 1)), (row_small (i + 2)) by lia.
  rewrite (col_small (j - 1)), (col_small (j + 2)) by lia.
  destruct (nested_total
    (λ a b, flags_inv data jmax c (before (i - 1) (j - 1) (j + 2) a b))
    (compare_cell data jmax c) (i - 1) (i + 2) (j - 1) (j + 2))
    with (a := (true, true)) as ([fmax fmin] & E & Hinv); try lia.
  - intros a flags Ha. apply flags_inv_ext. intros x y.
    apply before_next_row.
  - split; simpl; (split; [|done]); intros _ a b v Hb;
      by apply before_start in Hb.
  - intros a b flags Ha Hb Hinv.
    destruct (compare_cell_spec c a b _ flags ltac:(lia) ltac:(lia) Hinv)
      as (flags' & E & H').
    exists flags'. split; [done|]. revert H'. apply flags_inv_ext.
    intros x y. symmetry. apply before_step; lia.
  - exists fmax, fmin. split; [done|]. destruct Hinv as [Hmax Hmin].
    simpl in *. split.
    + rewrite Hmax. unfold no_greater. split.
      * intros H di dj c' v Hdi Hdj Hc' Hv.
        assert (c' = c) as -> by congruence.
        apply (H (i + di) (j + dj) v); [|done].
        apply before_end. lia.
      * intros H a b v Hb%before_end Hv.
        apply (H (a - i) (b - j) c v); [lia|lia|done|].
        by replace (i + (a - i)) with a by lia;
           replace (j + (b - j)) with b by lia.
    + rewrite Hmin. unfold no_smaller. split.
      * intros H di dj c' v Hdi Hdj Hc' Hv.
        assert (c' = c) as -> by congruence.
        apply (H (i + di) (j + dj) v); [|done].
        apply before_end. lia.
      * intros H a b v Hb%before_end Hv.
        apply (H (a - i) (b - j) c v); [lia|lia|done|].
        by replace (i + (a - i)) with a by lia;
           replace (j + (b - j)) with b by lia.
Qed.

End Grid.

(** ** One visit *)

Section Visit.

Variable data : list float.
Variables imax jmax min_max_length : Z.

Lemma store_extrema_Some idx v st st' :
  store_extrema idx v st = Some st' ↔
  slot (extrema st) idx ∧
  st' = mkState (<[Z.to_nat idx := v]> (extrema st))
          (maxima_x st) (maxima_y st) (minima_x st) (minima_y st)
          (maxima_length st) (minima_length st) (min_index st)
          (trace st ++ [Store_extrema idx v]).
Proof.
  unfold store_extrema, slot, log.
  destruct (store (extrema st) idx v) as [a|] eqn:E; simpl.
  - apply store_Some in E as [H ->]. split; [intros [= <-]|intros [_ ->]]; done.
  - split; [discriminate|]. intros [H _].
    by rewrite (store_in_bounds _ _ v H) in E.
Qed.

Lemma maximum_branch_step i j st st' :
  maximum_branch jmax min_max_length i j st = Some st' →
  ∀ is_min, step jmax min_max_length i j st true is_min st'.
Proof.
  unfold maximum_branch. intros H is_min.
  destruct (store_extrema _ f_one st) as [st1|] eqn:E1; [|discriminate].
  apply store_extrema_Some in E1 as [Hidx ->]. simpl in H.
  fold (marked jmax f_one i j st) in H.
  change (maxima_length st) with
    (maxima_length (marked jmax f_one i j st)) in H at 1.
  destruct (_ <? min_max_length) eqn:G.
  - unfold store_maxima_x, store_maxima_y, log in H. simpl in H.
    destruct (store (maxima_x st) _ _) as [mx|] eqn:Ex; [|discriminate].
    simpl in H.
    destruct (store (maxima_y st) _ _) as [my|] eqn:Ey; [|discriminate].
    simpl in H. injection H as <-.
    apply store_Some in Ex as [Hx ->]. apply store_Some in Ey as [Hy ->].
    by apply step_maximum_appended.
  - injection H as <-. by apply step_maximum_full.
Qed.

Lemma minimum_branch_step i j st st' :
  minimum_branch jmax min_max_length i j st = Some st' →
  step jmax min_max_length i j st false true st'.
Proof.
  unfold minimum_branch. intros H.
  destruct (_ <? min_max_length) eqn:G.
  - destruct (store_extrema _ f_minus_one st) as [st1|] eqn:E1;
      [|discriminate].
    apply store_extrema_Some in E1 as [Hidx ->]. simpl in H.
    unfold store_minima_x, store_minima_y, log in H. simpl in H.
    destruct (store (minima_x st) _ _) as [mx|] eqn:Ex; [|discriminate].
    simpl in H.
    destruct (store (minima_y st) _ _) as [my|] eqn:Ey; [|discriminate].
    simpl in H. injection H as <-.
    apply store_Some in Ex as [Hx ->]. apply store_Some in Ey as [Hy ->].
    by apply step_minimum_appended.
  - injection H as <-. by apply step_minimum_full.
Qed.

(** A visit that returns is a step under the flags of its block. *)
Lemma visit_step i j st st' :
  visit data jmax min_max_length i j st = Some st' →
  ∃ c is_max is_min,
    load data (size_wrap (i * jmax + j)) = Some c ∧
    neighbourhood data jmax i j c = Some (is_max, is_min) ∧
    step jmax min_max_length i j st is_max is_min st'.
Proof.
  unfold visit. intros H.
  destruct (load data _) as [c|] eqn:Ec; [|discriminate]. simpl in H.
  destruct (neighbourhood data jmax i j c) as [[fmax fmin]|] eqn:En;
    [|discriminate].
  exists c, fmax, fmin. split; [done|]. split; [done|].
  destruct fmax.
  - by apply maximum_branch_step.
  - destruct fmin.
    + by apply minimum_branch_step.
    + injection H as <-. apply step_neither.
Qed.

End Visit.

(** ** Invariants of the scan *)

Section Invariants.

Variable data : list float.
Variables imax jmax min_max_length : Z.

(** What every step preserves, the scan preserves: any input. *)
Lemma cextrema_inv (Q : state → Prop) st st' :
  Q (on_entry st) →
  (∀ i j s is_max is_min s',
     Q s → step jmax min_max_length i j s is_max is_min s' → Q s') →
  cextrema data imax jmax min_max_length st = Some st' →
  Q st'.
Proof.
  intros H0 Hstep Hrun. unfold cextrema, for_range in Hrun.
  apply (for_loop_inv (λ _, Q) _ _ _ _ _ H0) in Hrun; [done|].
  intros i x x' _ Hx Hrow. unfold scan_row, for_range in Hrow.
  apply (for_loop_inv (λ _, Q) _ _ _ _ _ Hx) in Hrow; [done|].
  intros j y y' _ Hy Hv.
  apply visit_step in Hv as (c & fmax & fmin & _ & _ & Hs).
  by eapply Hstep.
Qed.

Lemma step_sizes i j s is_max is_min s' :
  step jmax min_max_length i j s is_max is_min s' → sizes s' = sizes s.
Proof.
  intros H. destruct H; unfold sizes; simpl;
    rewrite ?length_insert; reflexivity.
Qed.

Lemma step_counters i j s is_max is_min s' :
  counters_ok s → step jmax min_max_length i j s is_max is_min s' →
  counters_ok s'.
Proof.
  intros [Hm Hn] H. destruct H; split; simpl;
    try done; apply int_wrap_is_int.
Qed.

Lemma cextrema_sizes st st' :
  cextrema data imax jmax min_max_length st = Some st' →
  sizes st' = sizes st.
Proof.
  apply (cextrema_inv (λ s, sizes s = sizes st)); [done|].
  intros i j s fmax fmin s' Hs Hstep.
  by rewrite (step_sizes _ _ _ _ _ _ Hstep).
Qed.

(** The scan does not touch [minima_length] after line 24. *)
Lemma cextrema_minima_length st st' :
  cextrema data imax jmax min_max_length st = Some st' →
  minima_length st' = 0.
Proof.
  apply (cextrema_inv (λ s, minima_length s = 0)); [done|].
  intros i j s fmax fmin s' Hs Hstep. by destruct Hstep.
Qed.

Hypothesis Hgrid : grid_ok data imax jmax.

Lemma cextrema_loops st :
  cextrema data imax jmax min_max_length st =
  for_range 1 (imax - 1)
    (λ i, for_range 1 (jmax - 1) (visit data jmax min_max_length i))
    (on_entry st).
Proof using Hgrid.
  unfold cextrema, scan_row.
  by rewrite (rows_bound data imax jmax Hgrid),
             (cols_bound data imax jmax Hgrid).
Qed.

(** On an interior cell the flags of a step are the two properties
    of its 3x3 block. *)
Lemma visit_interior i j st st' :
  interior imax jmax i j →
  visit data jmax min_max_length i j st = Some st' →
  ∃ is_max is_min,
    (is_max = true ↔ no_greater data jmax i j) ∧
    (is_min = true ↔ no_smaller data jmax i j) ∧
    step jmax min_max_length i j st is_max is_min st'.
Proof using Hgrid.
  intros Hint (c & fmax & fmin & Hc & Hn & Hs)%visit_step.
  rewrite (cell_index_wrap data imax jmax Hgrid) in Hc
    by (unfold interior in Hint; lia).
  destruct (neighbourhood_spec data imax jmax Hgrid i j c Hint Hc)
    as (fmax' & fmin' & Hn' & Hmax & Hmin).
  assert (fmax' = fmax ∧ fmin' = fmin) as [-> ->]
    by (split; congruence).
  by exists fmax, fmin.
Qed.

(** Invariant rule of the scan on a grid: [Q i j s] holds of the
    state [s] in which the scan is about to visit [(i, j)]. *)
Lemma cextrema_inv_grid (Q : Z → Z → state → Prop) st st' :
  (∀ i s, 1 <= i < imax - 1 → Q i (jmax - 1) s → Q (i + 1) 1 s) →
  Q 1 1 (on_entry st) →
  (∀ i j s is_max is_min s',
     interior imax jmax i j → Q i j s →
     (is_max = true ↔ no_greater data jmax i j) →
     (is_min = true ↔ no_smaller data jmax i j) →
     step jmax min_max_length i j s is_max is_min s' →
     Q i (j + 1) s') →
  cextrema data imax jmax min_max_length st = Some st' →
  Q (imax - 1) 1 st'.
Proof using Hgrid.
  intros Hrow H0 Hstep. rewrite cextrema_loops.
  destruct Hgrid as (Hi & Hj & _).
  apply (nested_inv Q); [lia|lia|done|done|].
  intros i j s s' Hi' Hj' Hs Hv.
  assert (Hint : interior imax jmax i j) by (unfold interior; lia).
  destruct (visit_interior i j s s' Hint Hv)
    as (fmax & fmin & Hmax & Hmin & Hst).
  by eapply Hstep.
Qed.

(** The same for a property that does not depend on the position. *)
Lemma cextrema_inv_class (Q : state → Prop) st st' :
  Q (on_entry st) →
  (∀ i j s is_max is_min s',
     interior imax jmax i j → Q s →
     (is_max = true ↔ no_greater data jmax i j) →
     (is_min = true ↔ no_smaller data jmax i j) →
     step jmax min_max_length i j s is_max is_min s' →
     Q s') →
  cextrema data imax jmax min_max_length st = Some st' →
  Q st'.
Proof using Hgrid.
  intros H0 Hstep. by apply (cextrema_inv_grid (λ _ _, Q)).
Qed.

End Invariants.

(** ** Memory safety *)

Section Safety.

Variable data : list float.
Variables imax jmax min_max_length : Z.
Hypothesis Hgrid : grid_ok data imax jmax.
Hypothesis Hcap : fits_object 4 min_max_length.

Lemma room_sizes s s' :
  sizes s' = sizes s →
  room imax jmax min_max_length s → room imax jmax min_max_length s'.
Proof. unfold sizes, room. intros [= -> -> -> -> ->]. done. Qed.

Lemma maximum_branch_total i j s :
  interior imax jmax i j → room imax jmax min_max_length s →
  counters_ok s →
  ∃ s', maximum_branch jmax min_max_length i j s = Some s'.
Proof using Hgrid Hcap.
  intros Hint (He & Hx & Hy & _) [Hm _]. unfold maximum_branch.
  destruct (cell_index_range data imax jmax Hgrid i j) as [Hidx _];
    [unfold interior in Hint; lia..|].
  rewrite (cell_index_wrap data imax jmax Hgrid)
    by (unfold interior in Hint; lia).
  unfold store_extrema. rewrite store_in_bounds by lia. simpl.
  destruct (_ <? min_max_length) eqn:G; [|by eexists].
  apply guard_slot in G; [|done..].
  unfold store_maxima_x. simpl. rewrite store_in_bounds by lia. simpl.
  unfold store_maxima_y. simpl. rewrite store_in_bounds by lia. simpl.
  by eexists.
Qed.

Lemma minimum_branch_total i j s :
  interior imax jmax i j → room imax jmax min_max_length s →
  counters_ok s →
  ∃ s', minimum_branch jmax min_max_length i j s = Some s'.
Proof using Hgrid Hcap.
  intros Hint (He & _ & _ & Hx & Hy) [_ Hn]. unfold minimum_branch.
  destruct (cell_index_range data imax jmax Hgrid i j) as [Hidx _];
    [unfold interior in Hint; lia..|].
  rewrite (cell_index_wrap data imax jmax Hgrid)
    by (unfold interior in Hint; lia).
  destruct (_ <? min_max_length) eqn:G; [|by eexists].
  apply guard_slot in G; [|done..].
  unfold store_extrema. rewrite store_in_bounds by lia. simpl.
  unfold store_minima_x. simpl. rewrite store_in_bounds by lia. simpl.
  unfold store_minima_y. simpl. rewrite store_in_bounds by lia. simpl.
  by eexists.
Qed.

Lemma visit_total i j s :
  interior imax jmax i j → room imax jmax min_max_length s →
  counters_ok s →
  ∃ s', visit data jmax min_max_length i j s = Some s'.
Proof using Hgrid Hcap.
  intros Hint Hroom Hcnt. unfold visit.
  destruct (grid_Some data imax jmax Hgrid i j) as [c Hc];
    [unfold interior in Hint; lia..|].
  rewrite (cell_index_wrap data imax jmax Hgrid)
    by (unfold interior in Hint; lia).
  unfold grid in Hc. rewrite Hc. simpl.
  destruct (neighbourhood_spec data imax jmax Hgrid i j c Hint Hc)
    as (fmax & fmin & -> & _).
  destruct fmax; [by apply maximum_branch_total|].
  destruct fmin; [by apply minimum_branch_total|by eexists].
Qed.

(** The scan of a grid into outputs with room returns. *)
Lemma cextrema_total st :
  room imax jmax min_max_length st → is_int (min_index st) →
  ∃ st', cextrema data imax jmax min_max_length st = Some st'.
Proof using Hgrid Hcap.
  intros Hroom Hn. rewrite (cextrema_loops data imax jmax _ Hgrid).
  destruct (nested_total
    (λ _ _ s, room imax jmax min_max_length s ∧ counters_ok s)
    (visit data jmax min_max_length) 1 (imax - 1) 1 (jmax - 1))
    with (a := on_entry st) as (st' & E & _).
  - destruct Hgrid as (? & ? & _). lia.
  - destruct Hgrid as (? & ? & _). lia.
  - done.
  - split; [done|]. split; [by vm_compute|done].
  - intros i j s Hi Hj [Hroom' Hcnt].
    assert (Hint : interior imax jmax i j) by (unfold interior; lia).
    destruct (visit_total i j s Hint Hroom' Hcnt) as [s' Hv].
    exists s'. split; [done|].
    apply visit_step in Hv as (c & fmax & fmin & _ & _ & Hs). split.
    + eapply room_sizes; [|done]. by eapply step_sizes.
    + by eapply step_counters.
  - by exists st'.
Qed.

(** Every store of the scan falls inside the declared extents. *)
Lemma cextrema_events_ok st st' :
  is_int (min_index st) → trace st = [] →
  cextrema data imax jmax min_max_length st = Some st' →
  Forall (event_ok imax jmax min_max_length) (trace st').
Proof using Hgrid Hcap.
  intros Hn Htr Hrun.
  cut (counters_ok st' ∧
       Forall (event_ok imax jmax min_max_length) (trace st'));
    [tauto|].
  revert Hrun.
  apply (cextrema_inv_class data imax jmax _ Hgrid
           (λ s, counters_ok s ∧
                 Forall (event_ok imax jmax min_max_length) (trace s))).
  - split; [split; [by vm_compute|done]|]. simpl. rewrite Htr. constructor.
  - intros i j s fmax fmin s' Hint [Hcnt Hev] _ _ Hstep.
    split; [by eapply step_counters|].
    destruct (cell_index_range data imax jmax Hgrid i j) as [Hidx _];
      [unfold interior in Hint; lia..|].
    pose proof (cell_index_wrap data imax jmax Hgrid i j) as Hw.
    destruct Hcnt as [Hm Hk].
    destruct Hstep as [? _ G _ _|? _ _|G _ _ _| |]; simpl;
      rewrite ?Forall_app, ?Forall_singleton; simpl;
      try rewrite Hw by (unfold interior in Hint; lia);
      try (apply guard_slot in G; [|done..]); done.
Qed.

End Safety.

(** ** The log of a scan *)

(** Membership in a log extended by a visit. *)
Ltac in_log :=
  repeat match goal with
  | H : _ ∈ _ ++ _ |- _ => apply elem_of_app in H as [H|H]
  | H : _ ∈ [_] |- _ => apply list_elem_of_singleton in H
  | H : _ ∈ [] |- _ => by apply elem_of_nil in H
  | H : _ ∨ _ |- _ => destruct H as [H|H]
  end.

Ltac log_mem := rewrite ?elem_of_app, ?list_elem_of_singleton; tauto.

(** An entry whose two halves are in the old log stays justified. *)
Ltac keep_pair Hpairs Hx Hy :=
  let a := fresh "a" in
  let b := fresh "b" in
  destruct (Hpairs _ _ _ Hx Hy) as (a & b & ? & ? & ? & ?);
  exists a, b; do 3 (split; [done|]); unfold sets in *; log_mem.

Section Log.

Variable data : list float.
Variables imax jmax min_max_length : Z.
Hypothesis Hgrid : grid_ok data imax jmax.

Lemma interior_wrap i j :
  interior imax jmax i j → size_wrap (i * jmax + j) = i * jmax + j.
Proof using Hgrid.
  intros [Hi Hj]. apply (cell_index_wrap data imax jmax Hgrid); lia.
Qed.

Lemma interior_inj i j a b :
  interior imax jmax i j → interior imax jmax a b →
  a * jmax + b = i * jmax + j → a = i ∧ b = j.
Proof. intros [_ Hj] [_ Hb]. apply cell_index_inj; lia. Qed.

(** Map stores: interior cells only, each with its class. *)
Lemma cextrema_map_events st st' :
  trace st = [] →
  cextrema data imax jmax min_max_length st = Some st' →
  map_events_ok data imax jmax (trace st').
Proof using Hgrid.
  intros Htr.
  apply (cextrema_inv_class data imax jmax _ Hgrid
           (λ s, map_events_ok data imax jmax (trace s))).
  - simpl. rewrite Htr. intros idx v H. by apply elem_of_nil in H.
  - intros i j s fmax fmin s' Hint Hs Hmax Hmin Hstep idx v Hin.
    pose proof (interior_wrap i j Hint) as Hw.
    assert (Hone : fmax = true → Store_extrema idx v =
              Store_extrema (i * jmax + j) f_one →
              ∃ a b, interior imax jmax a b ∧ idx = a * jmax + b ∧
                     classified data jmax v a b).
    { intros -> [= -> ->]. exists i, j. split; [done|]. split; [done|].
      left. split; [done|]. by apply Hmax. }
    assert (Hneg : fmax = false → fmin = true → Store_extrema idx v =
              Store_extrema (i * jmax + j) f_minus_one →
              ∃ a b, interior imax jmax a b ∧ idx = a * jmax + b ∧
                     classified data jmax v a b).
    { intros -> -> [= -> ->]. exists i, j. split; [done|]. split; [done|].
      right. split; [done|]. split; [|by apply Hmin].
      intros H%Hmax. discriminate. }
    destruct Hstep; simpl in Hin; rewrite ?Hw in Hin; in_log;
      try discriminate; eauto.
Qed.

End Log.

(** ** The map after a scan *)

Lemma replay_snoc tr e m : replay (tr ++ [e]) m = replay_event e (replay tr m).
Proof. unfold replay. by rewrite foldl_snoc. Qed.

Lemma replay_length tr m : length (replay tr m) = length m.
Proof.
  induction tr as [|e tr IH] using rev_ind; [done|].
  rewrite replay_snoc. destruct e; simpl; rewrite ?length_insert; done.
Qed.

(** A position no store of the log falls on keeps its value. *)
Lemma replay_frame tr m n :
  (∀ idx v, Store_extrema idx v ∈ tr → Z.to_nat idx ≠ n) →
  replay tr m !! n = m !! n.
Proof.
  induction tr as [|e tr IH] using rev_ind; intros H; [done|].
  rewrite replay_snoc.
  assert (IH' : replay tr m !! n = m !! n).
  { apply IH. intros idx v Hin. apply (H idx v). log_mem. }
  destruct e; simpl; try done.
  rewrite list_lookup_insert_ne; [done|]. apply (H idx v). log_mem.
Qed.

(** A position whose stores all carry [v], and that has one, holds [v]. *)
Lemma replay_value tr m n v :
  (n < length m)%nat →
  (∃ idx, Store_extrema idx v ∈ tr ∧ Z.to_nat idx = n) →
  (∀ idx w, Store_extrema idx w ∈ tr → Z.to_nat idx = n → w = v) →
  replay tr m !! n = Some v.
Proof.
  intros Hn. induction tr as [|e tr IH] using rev_ind;
    intros (idx & Hin & Hidx) Hall.
  { by apply elem_of_nil in Hin. }
  rewrite replay_snoc.
  assert (Hall' : ∀ idx w, Store_extrema idx w ∈ tr → Z.to_nat idx = n → w = v).
  { intros idx' w Hw. apply Hall. log_mem. }
  destruct e as [idx' w| | | |]; simpl;
    try (apply IH; [|done]; exists idx; split; [|done];
         in_log; [done|discriminate]).
  destruct (decide (Z.to_nat idx' = n)) as [E|E].
  - rewrite E, list_lookup_insert_eq by (by rewrite replay_length).
    f_equal. apply (Hall idx' w); [log_mem|done].
  - rewrite list_lookup_insert_ne by done.
    apply IH; [|done]. exists idx. split; [|done].
    in_log; [done|]. injection Hin as -> ->. done.
Qed.

(** A position holds what it held, or the value of a logged store
    that falls on it. *)
Lemma replay_last tr m n :
  replay tr m !! n = m !! n ∨
  ∃ idx v, Store_extrema idx v ∈ tr ∧ Z.to_nat idx = n ∧
           replay tr m !! n = Some v.
Proof.
  induction tr as [|e tr IH] using rev_ind; [by left|].
  rewrite replay_snoc.
  assert (Hkeep : replay tr m !! n = m !! n ∨
            ∃ idx v, Store_extrema idx v ∈ tr ++ [e] ∧ Z.to_nat idx = n ∧
                     replay tr m !! n = Some v).
  { destruct IH as [?|(idx & v & ? & ? & ?)]; [by left|right].
    exists idx, v. split; [log_mem|done]. }
  destruct e as [idx' w| | | |]; simpl; try done.
  destruct (decide (Z.to_nat idx' = n)) as [E|E].
  - destruct (decide (n < length (replay tr m))%nat) as [Hlt|Hge].
    + right. exists idx', w. split; [log_mem|]. split; [done|].
      rewrite E. by apply list_lookup_insert_eq.
    + left. rewrite list_insert_ge by lia.
      transitivity (@None float); [|symmetry]; apply lookup_ge_None;
        rewrite ?replay_length in *; lia.
  - by rewrite list_lookup_insert_ne.
Qed.

Section Map.

Variable data : list float.
Variables imax jmax min_max_length : Z.

(** The map after the scan is the map before it with the logged
    stores applied in order: any input. *)
Lemma cextrema_replay st st' :
  trace st = [] →
  cextrema data imax jmax min_max_length st = Some st' →
  extrema st' = replay (trace st') (extrema st).
Proof.
  intros Htr.
  apply (cextrema_inv data imax jmax min_max_length
           (λ s, extrema s = replay (trace s) (extrema st))).
  - simpl. by rewrite Htr.
  - intros i j s fmax fmin s' Hs Hstep.
    destruct Hstep; simpl; rewrite ?replay_snoc; simpl; by rewrite <- ?Hs.
Qed.

Hypothesis Hgrid : grid_ok data imax jmax.

(** A cell the scan has no store for keeps its value. *)
Lemma untouched_cell st st' i j :
  0 <= i → 0 <= j < jmax → trace st = [] →
  cextrema data imax jmax min_max_length st = Some st' →
  (∀ v, ¬ sets jmax (trace st') i j v) →
  grid (extrema st') jmax i j = grid (extrema st) jmax i j.
Proof using Hgrid.
  intros Hi Hj Htr Hrun Hno.
  pose proof (cextrema_map_events data imax jmax _ Hgrid st st' Htr Hrun)
    as Hev.
  pose proof (cextrema_sizes data imax jmax _ st st' Hrun) as Hsz.
  rewrite (cextrema_replay st st' Htr Hrun).
  unfold grid, load, in_bounds. rewrite replay_length.
  destruct (_ && _); [|done].
  apply replay_frame. intros idx v Hin Hidx.
  destruct (Hev idx v Hin) as (a & b & [Ha Hb] & -> & _).
  apply (Hno v). unfold sets.
  replace (i * jmax + j) with (a * jmax + b); [done|].
  destruct Hgrid as (_ & ? & _). nia.
Qed.

(** A cell all of whose stores carry [v], and that has one, holds
    [v] after the scan. *)
Lemma written_cell st st' i j v :
  interior imax jmax i j → trace st = [] →
  room imax jmax min_max_length st →
  cextrema data imax jmax min_max_length st = Some st' →
  sets jmax (trace st') i j v →
  (∀ w, sets jmax (trace st') i j w → w = v) →
  grid (extrema st') jmax i j = Some v.
Proof using Hgrid.
  intros Hint Htr (Hlen & _) Hrun Hin Hall.
  pose proof (cextrema_map_events data imax jmax _ Hgrid st st' Htr Hrun)
    as Hev.
  destruct (cell_index_range data imax jmax Hgrid i j) as [Hidx _];
    [unfold interior in Hint; lia..|].
  rewrite (cextrema_replay st st' Htr Hrun).
  unfold grid, load.
  rewrite (proj2 (in_bounds_true _ _)) by (rewrite replay_length; lia).
  apply replay_value.
  - lia.
  - by exists (i * jmax + j).
  - intros idx w Hw Hidx'. apply Hall. unfold sets.
    destruct (Hev idx w Hw) as (a & b & [Ha Hb] & -> & _).
    replace (i * jmax + j) with (a * jmax + b); [done|].
    destruct Hgrid as (_ & ? & _). nia.
Qed.

(** A cell holds after the scan what it held before it, or a value
    the scan stored in it. *)
Lemma cell_after st st' i j :
  0 <= i → 0 <= j < jmax → trace st = [] →
  cextrema data imax jmax min_max_length st = Some st' →
  grid (extrema st') jmax i j = grid (extrema st) jmax i j ∨
  ∃ v, sets jmax (trace st') i j v ∧ grid (extrema st') jmax i j = Some v.
Proof using Hgrid.
  intros Hi Hj Htr Hrun.
  pose proof (cextrema_map_events data imax jmax _ Hgrid st st' Htr Hrun)
    as Hev.
  rewrite (cextrema_replay st st' Htr Hrun).
  unfold grid, load, in_bounds. rewrite replay_length.
  destruct (_ && _); [|by left].
  destruct (replay_last (trace st') (extrema st) (Z.to_nat (i * jmax + j)))
    as [?|(idx & v & Hin & Hidx & Hv)]; [by left|right].
  exists v. split; [|done]. unfold sets.
  destruct (Hev idx v Hin) as (a & b & [Ha Hb] & -> & _).
  replace (i * jmax + j) with (a * jmax + b); [done|].
  destruct Hgrid as (_ & ? & _). nia.
Qed.

End Map.

(** ** The coordinate lists *)

Section Lists.

Variable data : list float.
Variables imax jmax min_max_length : Z.
Hypothesis Hgrid : grid_ok data imax jmax.

(** Entries of the maxima list: one slot each, of a cell stored [+1]. *)
Lemma cextrema_maxima_pairs st st' :
  trace st = [] →
  cextrema data imax jmax min_max_length st = Some st' →
  maxima_pairs imax jmax (trace st').
Proof using Hgrid.
  intros Htr Hrun.
  cut (is_int (maxima_length st') ∧
       maxima_slots (trace st') (maxima_length st') ∧
       maxima_pairs imax jmax (trace st')); [tauto|].
  revert Hrun.
  apply (cextrema_inv_class data imax jmax _ Hgrid
           (λ s, is_int (maxima_length s) ∧
                 maxima_slots (trace s) (maxima_length s) ∧
                 maxima_pairs imax jmax (trace s))).
  { simpl. rewrite Htr. split; [by vm_compute|].
    split; [intros k v H|intros k x y H]; in_log. }
  intros i j s fmax fmin s' Hint (Hm & Hslots & Hpairs) _ _ Hstep.
  pose proof (interior_wrap data imax jmax Hgrid i j Hint) as Hw.
  destruct Hstep as [? _ _ [Hk _] _|? _ _|_ _ _ _| |]; simpl;
    rewrite ?Hw; try done.
  - (* a new entry, in slot maxima_length *)
    split; [apply int_wrap_is_int|]. split.
    + assert (Hnew : ∀ k, 0 <= k <= maxima_length s →
                0 <= k ∧ (k < int_wrap (maxima_length s + 1) ∨
                          int_wrap (maxima_length s + 1) < 0)).
      { intros k ?. destruct (int_wrap_succ _ Hm) as [->|?]; lia. }
      intros k v H. in_log; try discriminate;
        first [ injection H as -> _; apply Hnew; lia
              | destruct (Hslots k v) as [? ?]; [tauto|]; apply Hnew; lia ].
    + intros k x y Hx Hy. in_log; try discriminate; simplify_eq;
        first
          [ keep_pair Hpairs Hx Hy
          | exfalso; destruct (Hslots _ _ (or_introl Hx)); lia
          | exfalso; destruct (Hslots _ _ (or_intror Hy)); lia
          | exists i, j; do 3 (split; [done|]); unfold sets; log_mem ].
  - (* the list is full: only the map is stored *)
    split; [done|]. split.
    + intros k v H. in_log; try discriminate; apply (Hslots k v); tauto.
    + intros k x y Hx Hy. in_log; try discriminate.
      keep_pair Hpairs Hx Hy.
  - (* an entry of the other list *)
    split; [done|]. split.
    + intros k v H. in_log; try discriminate; apply (Hslots k v); tauto.
    + intros k x y Hx Hy. in_log; try discriminate.
      keep_pair Hpairs Hx Hy.
Qed.

(** Entries of the minima list: one slot each, of a cell stored [-1]. *)
Lemma cextrema_minima_pairs st st' :
  is_int (min_index st) → trace st = [] →
  cextrema data imax jmax min_max_length st = Some st' →
  minima_pairs imax jmax (trace st').
Proof using Hgrid.
  intros Hn Htr Hrun.
  cut (is_int (min_index st') ∧
       minima_slots (trace st') (min_index st') ∧
       minima_pairs imax jmax (trace st')); [tauto|].
  revert Hrun.
  apply (cextrema_inv_class data imax jmax _ Hgrid
           (λ s, is_int (min_index s) ∧
                 minima_slots (trace s) (min_index s) ∧
                 minima_pairs imax jmax (trace s))).
  { simpl. rewrite Htr. split; [done|].
    split; [intros k v H|intros k x y H]; in_log. }
  intros i j s fmax fmin s' Hint (Hm & Hslots & Hpairs) _ _ Hstep.
  pose proof (interior_wrap data imax jmax Hgrid i j Hint) as Hw.
  destruct Hstep as [? _ _ _ _|? _ _|_ _ [Hk _] _| |]; simpl;
    rewrite ?Hw; try done.
  - split; [done|]. split.
    + intros k v H. in_log; try discriminate; apply (Hslots k v); tauto.
    + intros k x y Hx Hy. in_log; try discriminate.
      keep_pair Hpairs Hx Hy.
  - split; [done|]. split.
    + intros k v H. in_log; try discriminate; apply (Hslots k v); tauto.
    + intros k x y Hx Hy. in_log; try discriminate.
      keep_pair Hpairs Hx Hy.
  - split; [apply int_wrap_is_int|]. split.
    + assert (Hnew : ∀ k, 0 <= k <= min_index s →
                0 <= k ∧ (k < int_wrap (min_index s + 1) ∨
                          int_wrap (min_index s + 1) < 0)).
      { intros k ?. destruct (int_wrap_succ _ Hm) as [->|?]; lia. }
      intros k v H. in_log; try discriminate;
        first [ injection H as -> _; apply Hnew; lia
              | destruct (Hslots k v) as [? ?]; [tauto|]; apply Hnew; lia ].
    + intros k x y Hx Hy. in_log; try discriminate; simplify_eq;
        first
          [ keep_pair Hpairs Hx Hy
          | exfalso; destruct (Hslots _ _ (or_introl Hx)); lia
          | exfalso; destruct (Hslots _ _ (or_intror Hy)); lia
          | exists i, j; do 3 (split; [done|]); unfold sets; log_mem ].
Qed.

End Lists.

Section Listed.

Variable data : list float.
Variables imax jmax min_max_length : Z.
Hypothesis Hgrid : grid_ok data imax jmax.

Lemma appended_max_mono tr tr' x y :
  appended_max tr x y → appended_max (tr ++ tr') x y.
Proof. intros (k & ? & ?). exists k. split; log_mem. Qed.

Lemma appended_min_mono tr tr' x y :
  appended_min tr x y → appended_min (tr ++ tr') x y.
Proof. intros (k & ? & ?). exists k. split; log_mem. Qed.

(** Every cell stored [-1] has its entry in the minima list. *)
Lemma cextrema_minima_listed st st' :
  trace st = [] →
  cextrema data imax jmax min_max_length st = Some st' →
  minima_listed imax jmax (trace st').
Proof using Hgrid.
  intros Htr.
  apply (cextrema_inv_class data imax jmax _ Hgrid
           (λ s, minima_listed imax jmax (trace s))).
  { simpl. rewrite Htr. intros idx H. in_log. }
  intros i j s fmax fmin s' Hint Hs _ _ Hstep.
  pose proof (interior_wrap data imax jmax Hgrid i j Hint) as Hw.
  destruct Hstep; simpl; rewrite ?Hw; try done;
    intros idx Hin; in_log; try discriminate; simplify_eq;
    first
      [ destruct (Hs idx Hin) as (a & b & ? & ? & ?);
        exists a, b; do 2 (split; [done|]);
        repeat apply appended_min_mono; done
      | exists i, j; do 2 (split; [done|]);
        exists (min_index s); split; log_mem ].
Qed.

(** While the maxima list is not full, every cell stored [+1] has
    its entry in it. *)
Lemma cextrema_maxima_listed st st' :
  trace st = [] →
  cextrema data imax jmax min_max_length st = Some st' →
  (size_of_int (maxima_length st') <? min_max_length) = true →
  maxima_listed imax jmax (trace st').
Proof using Hgrid.
  intros Htr.
  apply (cextrema_inv_class data imax jmax _ Hgrid
           (λ s, (size_of_int (maxima_length s) <? min_max_length) = true →
                 maxima_listed imax jmax (trace s))).
  { simpl. rewrite Htr. intros _ idx H. in_log. }
  intros i j s fmax fmin s' Hint Hs _ _ Hstep.
  pose proof (interior_wrap data imax jmax Hgrid i j Hint) as Hw.
  destruct Hstep as [? _ G _ _|? _ G|_ _ _ _| |]; simpl; rewrite ?Hw;
    try done; intros G' idx Hin; try congruence;
    in_log; try discriminate; simplify_eq;
    first
      [ destruct (Hs ltac:(done) idx Hin) as (a & b & ? & ? & ?);
        exists a, b; do 2 (split; [done|]);
        repeat apply appended_max_mono; done
      | exists i, j; do 2 (split; [done|]);
        exists (maxima_length s); split; log_mem ].
Qed.

End Listed.

(** ** Counting the entries *)

Lemma maxima_written_snoc tr e :
  maxima_written (tr ++ [e]) =
  maxima_written tr + (if is_maxima_entry e then 1 else 0).
Proof.
  unfold maxima_written. rewrite filter_app, length_app.
  destruct (is_maxima_entry e) eqn:E.
  - rewrite filter_cons_True by done. simpl. lia.
  - rewrite filter_cons_False by (rewrite E; done). simpl. lia.
Qed.

Lemma minima_written_snoc tr e :
  minima_written (tr ++ [e]) =
  minima_written tr + (if is_minima_entry e then 1 else 0).
Proof.
  unfold minima_written. rewrite filter_app, length_app.
  destruct (is_minima_entry e) eqn:E.
  - rewrite filter_cons_True by done. simpl. lia.
  - rewrite filter_cons_False by (rewrite E; done). simpl. lia.
Qed.

Lemma maxima_written_prefix p q : maxima_written p <= maxima_written (p ++ q).
Proof. unfold maxima_written. rewrite filter_app, length_app. lia. Qed.

Lemma minima_written_prefix p q : minima_written p <= minima_written (p ++ q).
Proof. unfold minima_written. rewrite filter_app, length_app. lia. Qed.

Section Counting.

Variable data : list float.
Variables imax jmax min_max_length : Z.
Hypothesis Hcap : is_size min_max_length.

(** The entries written to the maxima list: at most the capacity,
    and as many as [maxima_length] says while it has not wrapped. *)
Lemma cextrema_maxima_written st st' :
  trace st = [] →
  cextrema data imax jmax min_max_length st = Some st' →
  is_int (maxima_length st') ∧
  maxima_written (trace st') <= min_max_length ∧
  (0 <= maxima_length st' →
   maxima_written (trace st') = maxima_length st').
Proof using Hcap.
  intros Htr.
  apply (cextrema_inv data imax jmax min_max_length
           (λ s, is_int (maxima_length s) ∧
                 maxima_written (trace s) <= min_max_length ∧
                 (0 <= maxima_length s →
                  maxima_written (trace s) = maxima_length s))).
  { simpl. rewrite Htr. split; [by vm_compute|].
    unfold is_size in Hcap. split; [|done]. unfold maxima_written. simpl. lia. }
  intros i j s fmax fmin s' (Hm & Hle & Heq) Hstep.
  destruct Hstep as [? _ G [Hk _] _|? _ _|_ _ _ _| |]; simpl;
    rewrite ?maxima_written_snoc; simpl; rewrite ?Z.add_0_r; try done.
  apply Z.ltb_lt in G. rewrite size_of_int_nonneg in G by (done || lia).
  split; [apply int_wrap_is_int|]. split; [lia|].
  destruct (int_wrap_succ _ Hm) as [->|?]; lia.
Qed.

(** The entries written to the minima list: at most the capacity. *)
Lemma cextrema_minima_written st st' :
  is_int (min_index st) → trace st = [] →
  cextrema data imax jmax min_max_length st = Some st' →
  is_int (min_index st') ∧
  minima_written (trace st') <= min_max_length ∧
  (minima_written (trace st') = 0 ∨ min_index st' < 0 ∨
   minima_written (trace st') <= min_index st').
Proof using Hcap.
  intros Hn Htr.
  apply (cextrema_inv data imax jmax min_max_length
           (λ s, is_int (min_index s) ∧
                 minima_written (trace s) <= min_max_length ∧
                 (minima_written (trace s) = 0 ∨ min_index s < 0 ∨
                  minima_written (trace s) <= min_index s))).
  { simpl. rewrite Htr. split; [done|].
    unfold is_size in Hcap. unfold minima_written. simpl. lia. }
  intros i j s fmax fmin s' (Hm & Hle & Heq) Hstep.
  destruct Hstep as [? _ _ _ _|? _ _|G _ [Hk _] _| |]; simpl;
    rewrite ?minima_written_snoc; simpl; rewrite ?Z.add_0_r; try done.
  apply Z.ltb_lt in G. rewrite size_of_int_nonneg in G by (done || lia).
  split; [apply int_wrap_is_int|]. split; [lia|].
  destruct (int_wrap_succ _ Hm) as [->|?]; lia.
Qed.

End Counting.

(** ** Maxima come first *)

Section Priority.

Variable data : list float.
Variables imax jmax min_max_length : Z.
Hypothesis Hgrid : grid_ok data imax jmax.

(** Every interior cell without a greater neighbour is stored [+1]. *)
Lemma cextrema_maxima_marked st st' :
  cextrema data imax jmax min_max_length st = Some st' →
  ∀ a b, interior imax jmax a b → no_greater data jmax a b →
         sets jmax (trace st') a b f_one.
Proof using Hgrid.
  intros Hrun a b Hint Hmax.
  cut (∀ a b, before 1 1 (jmax - 1) (imax - 1) 1 a b →
              no_greater data jmax a b → sets jmax (trace st') a b f_one).
  { intros H. apply H; [|done]. apply before_end.
    unfold interior in Hint. lia. }
  revert Hrun. clear a b Hint Hmax.
  apply (cextrema_inv_grid data imax jmax _ Hgrid
           (λ i j s, ∀ a b, before 1 1 (jmax - 1) i j a b →
                            no_greater data jmax a b →
                            sets jmax (trace s) a b f_one)).
  - intros i s Hi H a b Hb. apply H. by apply before_next_row.
  - intros a b Hb. by apply before_start in Hb.
  - intros i j s fmax fmin s' Hint Hs Hmax _ Hstep a b Hb Hab.
    pose proof (interior_wrap data imax jmax Hgrid i j Hint) as Hw.
    apply before_step in Hb; [|unfold interior in Hint; lia..].
    destruct Hb as [Hb|[-> ->]].
    + specialize (Hs a b Hb Hab). unfold sets in *.
      destruct Hstep; simpl; log_mem.
    + apply Hmax in Hab. unfold sets.
      destruct Hstep; simpl; rewrite ?Hw; try discriminate; log_mem.
Qed.

(** Such a cell is never stored [-1], whatever its smaller
    neighbours. *)
Lemma maximum_not_minimum st st' a b :
  trace st = [] →
  cextrema data imax jmax min_max_length st = Some st' →
  interior imax jmax a b → no_greater data jmax a b →
  ∀ v, sets jmax (trace st') a b v → v = f_one.
Proof using Hgrid.
  intros Htr Hrun Hint Hmax v Hv.
  destruct (cextrema_map_events data imax jmax _ Hgrid st st' Htr Hrun
              _ _ Hv) as (a' & b' & Hint' & E & Hc).
  apply (interior_inj imax jmax) in E as [-> ->]; [|done..].
  destruct Hc as [[-> _]|(_ & Hno & _)]; [done|contradiction].
Qed.

(** The tie-break: an interior cell without a greater neighbour
    holds [+1] after the scan. *)
Lemma maximum_takes_priority st st' a b :
  trace st = [] → room imax jmax min_max_length st →
  cextrema data imax jmax min_max_length st = Some st' →
  interior imax jmax a b → no_greater data jmax a b →
  grid (extrema st') jmax a b = Some f_one.
Proof using Hgrid.
  intros Htr Hroom Hrun Hint Hmax.
  apply (written_cell data imax jmax min_max_length Hgrid st);
    try done.
  - by apply (cextrema_maxima_marked st).
  - by apply (maximum_not_minimum st).
Qed.

End Priority.

(** A float is not greater than itself. *)
Lemma float_gt_irrefl v : float_gt v v = false.
Proof.
  unfold float_gt, SFltb.
  destruct v as [[]|[]| |[] m e]; simpl; try done;
    rewrite Z.compare_refl, Pos.compare_cont_refl; done.
Qed.

(** In a flat grid no cell has a greater neighbour. *)
Lemma flat_no_greater data jmax v i j :
  (∀ x, x ∈ data → x = v) → no_greater data jmax i j.
Proof.
  intros Hflat di dj c w _ _ Hc Hw. unfold grid, load in *.
  destruct (in_bounds data (i * jmax + j)); [|discriminate].
  destruct (in_bounds data _); [|discriminate].
  apply list_elem_of_lookup_2, Hflat in Hc, Hw. subst.
  apply float_gt_irrefl.
Qed.

(** ** Grids without interior *)

Lemma for_loop_skip {A} (body : Z → A → option A) n :
  (∀ i a, body i a = Some a) → ∀ lo a, for_loop n lo body a = Some a.
Proof.
  intros H. induction n as [|n IH]; intros lo a; simpl; [done|].
  by rewrite H.
Qed.

Lemma cextrema_no_interior data imax jmax min_max_length st :
  1 <= imax < 3 ∨ 1 <= jmax < 3 →
  cextrema data imax jmax min_max_length st = Some (on_entry st).
Proof.
  intros [Hi|Hj]; unfold cextrema.
  - apply for_range_empty. rewrite size_wrap_small; unfold SIZE_MAX; lia.
  - unfold for_range. apply for_loop_skip. intros i s. unfold scan_row.
    apply for_range_empty. rewrite size_wrap_small; unfold SIZE_MAX; lia.
Qed.

(** * The properties of the scan *)

(** Discharges the side conditions of a concrete call. *)
Ltac concrete :=
  unfold grid_ok, outputs_ok, room, fits_object, is_int, is_size,
    interior, SIZE_MAX, INT_MIN, INT_MAX;
  simpl; repeat split; try lia; try done.

(** C1. On a grid of at least 3x3 the scan returns, and for every
    interior cell: if it stored [+1] in the map cell, no cell of the
    3x3 block is strictly greater than the centre; if it stored [-1],
    none is strictly smaller. The same read off the map: a cell that
    holds [+1] (resp. [-1]) after the scan and did not before it has no
    strictly greater (resp. smaller) cell in its block. *)
Theorem classified_cells_are_extrema data imax jmax min_max_length st :
  grid_ok data imax jmax →
  outputs_ok imax jmax min_max_length st →
  ∃ st', cextrema data imax jmax min_max_length st = Some st' ∧
    ∀ i j, interior imax jmax i j →
      (sets jmax (trace st') i j f_one → no_greater data jmax i j) ∧
      (sets jmax (trace st') i j f_minus_one → no_smaller data jmax i j) ∧
      (grid (extrema st) jmax i j ≠ Some f_one →
       grid (extrema st') jmax i j = Some f_one →
       no_greater data jmax i j) ∧
      (grid (extrema st) jmax i j ≠ Some f_minus_one →
       grid (extrema st') jmax i j = Some f_minus_one →
       no_smaller data jmax i j).
Proof.
  intros Hgrid (Hroom & Hcap & Hn & Htr).
  destruct (cextrema_total data imax jmax _ Hgrid Hcap st Hroom Hn)
    as [st' Hrun].
  exists st'. split; [done|]. intros i j Hint.
  pose proof (cextrema_map_events data imax jmax _ Hgrid st st' Htr Hrun)
    as Hev.
  assert (Hmax : sets jmax (trace st') i j f_one → no_greater data jmax i j).
  { intros Hset. destruct (Hev _ _ Hset) as (a & b & Hint' & E & Hc).
    apply (interior_inj imax jmax) in E as [-> ->]; [|done..].
    destruct Hc as [[? ?]|(? & ? & ?)]; done. }
  assert (Hmin : sets jmax (trace st') i j f_minus_one →
                 no_smaller data jmax i j).
  { intros Hset. destruct (Hev _ _ Hset) as (a & b & Hint' & E & Hc).
    apply (interior_inj imax jmax) in E as [-> ->]; [|done..].
    destruct Hc as [[? ?]|(? & ? & ?)]; done. }
  do 2 (split; [done|]).
  destruct (cell_after data imax jmax min_max_length Hgrid st st' i j)
    as [Hsame|(v & Hset & Hv)];
    try done; try (unfold interior in Hint; lia).
  - rewrite Hsame. by split.
  - rewrite Hv. split; intros _ [= ->]; auto.
Qed.

Lemma classified_cells_are_extrema_witness :
  ∃ st', cextrema peak_3x3 3 3 4 (fresh 9 4) = Some st' ∧
    ∀ i j, interior 3 3 i j →
      (sets 3 (trace st') i j f_one → no_greater peak_3x3 3 i j) ∧
      (sets 3 (trace st') i j f_minus_one → no_smaller peak_3x3 3 i j) ∧
      (grid (extrema (fresh 9 4)) 3 i j ≠ Some f_one →
       grid (extrema st') 3 i j = Some f_one →
       no_greater peak_3x3 3 i j) ∧
      (grid (extrema (fresh 9 4)) 3 i j ≠ Some f_minus_one →
       grid (extrema st') 3 i j = Some f_minus_one →
       no_smaller peak_3x3 3 i j).
Proof. apply classified_cells_are_extrema; concrete. Defined.

(** C2, as stated, fails for the maxima list: on a flat grid of 3x4
    with room for one entry, the second interior cell is stored [+1]
    in the map and is not appended. *)
Lemma maxima_list_diverges_when_full :
  ¬ (∀ data imax jmax min_max_length st st',
       grid_ok data imax jmax → outputs_ok imax jmax min_max_length st →
       cextrema data imax jmax min_max_length st = Some st' →
       ∀ i j, interior imax jmax i j →
         (appended_max (trace st') i j ↔ sets jmax (trace st') i j f_one)).
Proof.
  intros H.
  destruct (cextrema flat_3x4 3 4 1 (fresh 12 1)) as [st'|] eqn:E;
    [|by vm_compute in E].
  specialize (H flat_3x4 3 4 1 (fresh 12 1) st'
                ltac:(concrete) ltac:(concrete) E 1 2 ltac:(concrete)).
  vm_compute in E. injection E as <-. simpl in H.
  destruct H as [_ H]. unfold sets in H. simpl in H.
  rewrite !elem_of_cons in H.
  destruct H as (k & _ & Hy); [auto 10|].
  rewrite !elem_of_cons, elem_of_nil in Hy. intuition congruence.
Qed.

(** C2, amended. On a grid of at least 3x3 whose coordinates are [int]
    values the scan returns, and for every cell [(i, j)]: an entry
    [(i, j)] of the maxima list is that of a cell stored [+1]; [(i, j)]
    is an entry of the minima list if and only if the cell is stored
    [-1]; and while the maxima list is not full at the end of the scan,
    every cell stored [+1] has its entry in it. Once the list is full,
    further maxima are still stored [+1] and are not appended: every
    interior cell without a greater neighbour is stored [+1], and the
    entries written to the maxima list are at most [min_max_length]. *)
Theorem lists_agree_with_map data imax jmax min_max_length st :
  grid_ok data imax jmax →
  outputs_ok imax jmax min_max_length st →
  imax <= INT_MAX → jmax <= INT_MAX →
  ∃ st', cextrema data imax jmax min_max_length st = Some st' ∧
    (∀ i j, interior imax jmax i j →
      (appended_max (trace st') i j → sets jmax (trace st') i j f_one) ∧
      (appended_min (trace st') i j ↔
         sets jmax (trace st') i j f_minus_one) ∧
      ((size_of_int (maxima_length st') <? min_max_length) = true →
       sets jmax (trace st') i j f_one → appended_max (trace st') i j) ∧
      (no_greater data jmax i j → sets jmax (trace st') i j f_one)) ∧
    maxima_written (trace st') <= min_max_length.
Proof.
  intros Hgrid (Hroom & Hcap & Hn & Htr) Hi Hj.
  destruct (cextrema_total data imax jmax _ Hgrid Hcap st Hroom Hn)
    as [st' Hrun].
  exists st'. split; [done|].
  split.
  2: { assert (Hsize : is_size min_max_length)
         by (destruct Hcap; unfold is_size; lia).
       by destruct (cextrema_maxima_written data imax jmax _ Hsize st st'
                      Htr Hrun) as (_ & ? & _). }
  intros i j Hint.
  assert (Hcoord : ∀ a b, interior imax jmax a b →
            int_wrap a = a ∧ int_wrap b = b).
  { intros a b [Ha Hb].
    split; apply int_wrap_small; unfold is_int, INT_MIN, INT_MAX in *; lia. }
  split; [|split; [|split]].
  - intros (k & Hx & Hy).
    destruct (cextrema_maxima_pairs data imax jmax _ Hgrid st st' Htr Hrun
                k i j Hx Hy) as (a & b & Hab & -> & -> & Hset).
    by destruct (Hcoord a b Hab) as [-> ->].
  - split.
    + intros (k & Hx & Hy).
      destruct (cextrema_minima_pairs data imax jmax _ Hgrid st st' Hn Htr
                  Hrun k i j Hx Hy) as (a & b & Hab & -> & -> & Hset).
      by destruct (Hcoord a b Hab) as [-> ->].
    + intros Hset.
      destruct (cextrema_minima_listed data imax jmax _ Hgrid st st' Htr
                  Hrun _ Hset) as (a & b & Hab & E & Happ).
      symmetry in E. apply (interior_inj imax jmax) in E as [<- <-];
        [|done..].
      by destruct (Hcoord a b Hab) as [<- <-].
  - intros G Hset.
    destruct (cextrema_maxima_listed data imax jmax _ Hgrid st st' Htr
                Hrun G _ Hset) as (a & b & Hab & E & Happ).
    symmetry in E. apply (interior_inj imax jmax) in E as [<- <-];
      [|done..].
    by destruct (Hcoord a b Hab) as [<- <-].
  - by apply (cextrema_maxima_marked data imax jmax min_max_length Hgrid st).
Qed.

Lemma lists_agree_with_map_witness :
  ∃ st', cextrema flat_3x4 3 4 1 (fresh 12 1) = Some st' ∧
    (∀ i j, interior 3 4 i j →
      (appended_max (trace st') i j → sets 4 (trace st') i j f_one) ∧
      (appended_min (trace st') i j ↔ sets 4 (trace st') i j f_minus_one) ∧
      ((size_of_int (maxima_length st') <? 1) = true →
       sets 4 (trace st') i j f_one → appended_max (trace st') i j) ∧
      (no_greater flat_3x4 4 i j → sets 4 (trace st') i j f_one)) ∧
    maxima_written (trace st') <= 1.
Proof. apply lists_agree_with_map; concrete. Defined.

(** When the capacity is an [int] value, [maxima_length] is the number
    of entries written to the maxima list. *)
Lemma maxima_count_reported data imax jmax min_max_length st st' :
  is_size min_max_length → min_max_length <= INT_MAX → trace st = [] →
  cextrema data imax jmax min_max_length st = Some st' →
  maxima_written (trace st') = maxima_length st'.
Proof.
  intros Hcap Hint Htr Hrun.
  destruct (cextrema_maxima_written data imax jmax _ Hcap st st' Htr Hrun)
    as (_ & _ & Heq).
  apply Heq. revert Hrun.
  cut (cextrema data imax jmax min_max_length st = Some st' →
       is_int (maxima_length st') ∧ 0 <= maxima_length st'); [tauto|].
  apply (cextrema_inv data imax jmax min_max_length
           (λ s, is_int (maxima_length s) ∧ 0 <= maxima_length s)).
  { simpl. split; [by vm_compute|done]. }
  intros i j s fmax fmin s' [Hm H0] Hstep.
  destruct Hstep as [? _ G _ _|? _ _|_ _ _ _| |]; simpl; try done.
  apply Z.ltb_lt in G. rewrite size_of_int_nonneg in G by done.
  split; [apply int_wrap_is_int|].
  rewrite int_wrap_small; unfold is_int, INT_MIN, INT_MAX in *; lia.
Qed.

(** C3 fails in the code, for the minima. Whatever the input,
    [minima_length] is 0 after the scan; and on a 3x3 grid with a pit
    in the middle and room for four entries, one pair is written to the
    minima list. The minima branch counts in [min_index], not in
    [minima_length]. *)
Theorem minima_count_not_reported :
  (∀ data imax jmax min_max_length st st',
     cextrema data imax jmax min_max_length st = Some st' →
     minima_length st' = 0) ∧
  ∃ st', cextrema pit_3x3 3 3 4 (fresh 9 4) = Some st' ∧
    minima_x st' = [1; 0; 0; 0] ∧ minima_y st' = [1; 0; 0; 0] ∧
    minima_written (trace st') = 1 ∧
    minima_length st' = 0 ∧ min_index st' = 1.
Proof.
  split; [apply cextrema_minima_length|].
  eexists. split; [by vm_compute|]. by vm_compute.
Qed.

(** C4, as stated, fails: for 2 rows the specification asks for
    [InvalidDimensions], and the scan returns with both counts reset;
    for a grid buffer larger than rows x cols it asks for
    [NullOrMismatchedBuffer], and the scan returns as well. *)
Lemma scan_returns_where_spec_fails :
  (spec_failure 2 3 4 6 6 = Some InvalidDimensions ∧
   cextrema pit_2x3 2 3 4 (fresh 6 4) = Some (fresh 6 4)) ∧
  (spec_failure 3 3 4 12 9 = Some NullOrMismatchedBuffer ∧
   cextrema flat_3x4 3 3 4 (fresh 9 4) ≠ None).
Proof. split; (split; [by vm_compute|]); by vm_compute. Qed.

(** C4, amended. The scan checks nothing and has no error result.
    With one or two rows, or one or two columns, it returns having only
    reset the two counts. With at least 3x3 cells it returns whenever
    the buffers have room for what is declared, larger buffers
    included. The capacity is a [size_t]: it is never negative. *)
Theorem scan_reports_no_error data imax jmax min_max_length st :
  (1 <= imax < 3 ∨ 1 <= jmax < 3 →
   cextrema data imax jmax min_max_length st = Some (on_entry st)) ∧
  (grid_ok data imax jmax → outputs_ok imax jmax min_max_length st →
   ∃ st', cextrema data imax jmax min_max_length st = Some st').
Proof.
  split.
  - apply cextrema_no_interior.
  - intros Hgrid (Hroom & Hcap & Hn & _).
    by apply (cextrema_total data imax jmax _ Hgrid Hcap).
Qed.

Lemma scan_reports_no_error_witness :
  cextrema pit_2x3 2 3 4 (fresh 6 4) = Some (on_entry (fresh 6 4)) ∧
  ∃ st', cextrema flat_3x4 3 3 4 (fresh 9 4) = Some st'.
Proof.
  split.
  - apply (proj1 (scan_reports_no_error pit_2x3 2 3 4 (fresh 6 4))). lia.
  - apply (proj2 (scan_reports_no_error flat_3x4 3 3 4 (fresh 9 4)));
      concrete.
Defined.

(** C8. With 2 rows or 2 columns the scan returns and classifies
    nothing: it logs no store, and the map and the four lists are as
    before. *)
Theorem no_interior_no_writes data imax jmax min_max_length st :
  imax = 2 ∨ jmax = 2 →
  ∃ st', cextrema data imax jmax min_max_length st = Some st' ∧
    trace st' = trace st ∧ extrema st' = extrema st ∧
    maxima_x st' = maxima_x st ∧ maxima_y st' = maxima_y st ∧
    minima_x st' = minima_x st ∧ minima_y st' = minima_y st.
Proof.
  intros H. exists (on_entry st). split; [|done].
  apply cextrema_no_interior. lia.
Qed.

Lemma no_interior_no_writes_witness :
  ∃ st', cextrema pit_2x3 2 3 4 (fresh 6 4) = Some st' ∧
    trace st' = trace (fresh 6 4) ∧ extrema st' = extrema (fresh 6 4) ∧
    maxima_x st' = maxima_x (fresh 6 4) ∧
    maxima_y st' = maxima_y (fresh 6 4) ∧
    minima_x st' = minima_x (fresh 6 4) ∧
    minima_y st' = minima_y (fresh 6 4).
Proof. apply no_interior_no_writes. left. reflexivity. Defined.

Lemma minima_written_zero tr :
  (∀ k x, Store_minima_x k x ∉ tr) → minima_written tr = 0.
Proof.
  induction tr as [|e tr IH] using rev_ind; intros H; [done|].
  rewrite minima_written_snoc, IH.
  - destruct e; simpl; try done. exfalso. apply (H k v). log_mem.
  - intros k x Hin. apply (H k x). log_mem.
Qed.

(** A store into the minima list comes with a map store of [-1]:
    any input. *)
Lemma cextrema_minima_stores data imax jmax min_max_length st st' :
  trace st = [] →
  cextrema data imax jmax min_max_length st = Some st' →
  ∀ k x, Store_minima_x k x ∈ trace st' ∨ Store_minima_y k x ∈ trace st' →
         ∃ idx, Store_extrema idx f_minus_one ∈ trace st'.
Proof.
  intros Htr.
  apply (cextrema_inv data imax jmax min_max_length
           (λ s, ∀ k x, Store_minima_x k x ∈ trace s ∨
                        Store_minima_y k x ∈ trace s →
                        ∃ idx, Store_extrema idx f_minus_one ∈ trace s)).
  { simpl. rewrite Htr. intros k x H. in_log. }
  intros i j s fmax fmin s' Hs Hstep.
  destruct Hstep as [? _ _ _ _|? _ _|_ _ _ _| |]; simpl; try done;
    intros k x Hin; in_log; try discriminate;
    first
      [ destruct (Hs k x ltac:(tauto)) as [idx Hidx]; exists idx; log_mem
      | eexists; rewrite !elem_of_app, !list_elem_of_singleton;
        left; left; right; reflexivity ].
Qed.

(** C5. On a flat grid of at least 3x3 the scan returns, every
    interior cell is stored [+1] and holds [+1] afterwards, no cell is
    stored [-1], and nothing is written to the minima list: whatever
    the capacity. Where the maxima list is not full at the end, every
    interior cell has its entry in it. The tie-break itself is
    [maximum_takes_priority]. *)
Theorem flat_grid_all_maxima data imax jmax min_max_length st v :
  grid_ok data imax jmax →
  outputs_ok imax jmax min_max_length st →
  (∀ x, x ∈ data → x = v) →
  ∃ st', cextrema data imax jmax min_max_length st = Some st' ∧
    (∀ i j, interior imax jmax i j →
       sets jmax (trace st') i j f_one ∧
       grid (extrema st') jmax i j = Some f_one ∧
       ((size_of_int (maxima_length st') <? min_max_length) = true →
        appended_max (trace st') (int_wrap i) (int_wrap j))) ∧
    (∀ idx, Store_extrema idx f_minus_one ∉ trace st') ∧
    (∀ k x, (Store_minima_x k x ∉ trace st') ∧
            (Store_minima_y k x ∉ trace st')) ∧
    minima_written (trace st') = 0.
Proof.
  intros Hgrid (Hroom & Hcap & Hn & Htr) Hflat.
  destruct (cextrema_total data imax jmax _ Hgrid Hcap st Hroom Hn)
    as [st' Hrun].
  exists st'. split; [done|].
  assert (Hno : ∀ idx, Store_extrema idx f_minus_one ∉ trace st').
  { intros idx Hin.
    destruct (cextrema_map_events data imax jmax _ Hgrid st st' Htr Hrun
                _ _ Hin) as (a & b & _ & _ & [[? _]|(_ & Hgt & _)]);
      [done|]. apply Hgt. by apply (flat_no_greater data jmax v). }
  assert (Hmin : ∀ k x, (Store_minima_x k x ∉ trace st') ∧
                        (Store_minima_y k x ∉ trace st')).
  { intros k x. split; intros Hin;
      destruct (cextrema_minima_stores data imax jmax _ st st' Htr Hrun k x)
        as [idx Hidx]; try tauto; by apply (Hno idx). }
  split; [|split; [done|split; [done|]]].
  - intros i j Hint.
    pose proof (flat_no_greater data jmax v i j Hflat) as Hmax.
    pose proof (cextrema_maxima_marked data imax jmax _ Hgrid st st' Hrun
                  i j Hint Hmax) as Hset.
    split; [done|]. split.
    + by apply (maximum_takes_priority data imax jmax min_max_length
                  Hgrid st).
    + intros G.
      destruct (cextrema_maxima_listed data imax jmax _ Hgrid st st' Htr
                  Hrun G _ Hset) as (a & b & Hab & E & Happ).
      symmetry in E. by apply (interior_inj imax jmax) in E as [<- <-].
  - apply minima_written_zero. intros k x. apply Hmin.
Qed.

Lemma flat_grid_all_maxima_witness :
  ∃ st', cextrema flat_3x4 3 4 1 (fresh 12 1) = Some st' ∧
    (∀ i j, interior 3 4 i j →
       sets 4 (trace st') i j f_one ∧
       grid (extrema st') 4 i j = Some f_one ∧
       ((size_of_int (maxima_length st') <? 1) = true →
        appended_max (trace st') (int_wrap i) (int_wrap j))) ∧
    (∀ idx, Store_extrema idx f_minus_one ∉ trace st') ∧
    (∀ k x, (Store_minima_x k x ∉ trace st') ∧
            (Store_minima_y k x ∉ trace st')) ∧
    minima_written (trace st') = 0.
Proof.
  apply (flat_grid_all_maxima flat_3x4 3 4 1 (fresh 12 1) f_zero);
    [concrete|concrete|].
  intros x Hx. by apply elem_of_replicate_inv in Hx.
Defined.

(** C6. On a grid of at least 3x3 the scan returns; it stores nothing
    in a map cell of the outer ring, and such a cell holds afterwards
    what it held before; an interior cell that has both a greater and a
    smaller neighbour is not stored either and keeps its value; every
    map store is that of an interior cell without a greater neighbour
    or without a smaller one. *)
Theorem map_frame data imax jmax min_max_length st :
  grid_ok data imax jmax →
  outputs_ok imax jmax min_max_length st →
  ∃ st', cextrema data imax jmax min_max_length st = Some st' ∧
    (∀ i j, on_boundary imax jmax i j →
       (∀ v, ¬ sets jmax (trace st') i j v) ∧
       grid (extrema st') jmax i j = grid (extrema st) jmax i j) ∧
    (∀ i j, interior imax jmax i j →
       ¬ no_greater data jmax i j → ¬ no_smaller data jmax i j →
       (∀ v, ¬ sets jmax (trace st') i j v) ∧
       grid (extrema st') jmax i j = grid (extrema st) jmax i j) ∧
    (∀ idx v, Store_extrema idx v ∈ trace st' →
       ∃ i j, interior imax jmax i j ∧ idx = i * jmax + j ∧
              (no_greater data jmax i j ∨ no_smaller data jmax i j)).
Proof.
  intros Hgrid (Hroom & Hcap & Hn & Htr).
  destruct (cextrema_total data imax jmax _ Hgrid Hcap st Hroom Hn)
    as [st' Hrun].
  exists st'. split; [done|].
  pose proof (cextrema_map_events data imax jmax _ Hgrid st st' Htr Hrun)
    as Hev.
  split; [|split].
  - intros i j (Hi & Hj & Hring).
    assert (Hno : ∀ v, ¬ sets jmax (trace st') i j v).
    { intros v Hset.
      destruct (Hev _ _ Hset) as (a & b & [Ha Hb] & E & _).
      symmetry in E. apply cell_index_inj in E; lia. }
    split; [done|].
    apply (untouched_cell data imax jmax min_max_length Hgrid st);
      try done; lia.
  - intros i j Hint Hgt Hlt.
    assert (Hno : ∀ v, ¬ sets jmax (trace st') i j v).
    { intros v Hset.
      destruct (Hev _ _ Hset) as (a & b & Hab & E & Hc).
      apply (interior_inj imax jmax) in E as [-> ->]; [|done..].
      destruct Hc as [[_ ?]|(_ & _ & ?)]; done. }
    split; [done|].
    apply (untouched_cell data imax jmax min_max_length Hgrid st);
      try done; unfold interior in Hint; lia.
  - intros idx v Hin.
    destruct (Hev _ _ Hin) as (a & b & Hab & E & Hc).
    exists a, b. do 2 (split; [done|]).
    destruct Hc as [[_ ?]|(_ & _ & ?)]; tauto.
Qed.

Lemma map_frame_witness :
  ∃ st', cextrema peak_3x3 3 3 4 (fresh 9 4) = Some st' ∧
    (∀ i j, on_boundary 3 3 i j →
       (∀ v, ¬ sets 3 (trace st') i j v) ∧
       grid (extrema st') 3 i j = grid (extrema (fresh 9 4)) 3 i j) ∧
    (∀ i j, interior 3 3 i j →
       ¬ no_greater peak_3x3 3 i j → ¬ no_smaller peak_3x3 3 i j →
       (∀ v, ¬ sets 3 (trace st') i j v) ∧
       grid (extrema st') 3 i j = grid (extrema (fresh 9 4)) 3 i j) ∧
    (∀ idx v, Store_extrema idx v ∈ trace st' →
       ∃ i j, interior 3 3 i j ∧ idx = i * 3 + j ∧
              (no_greater peak_3x3 3 i j ∨ no_smaller peak_3x3 3 i j)).
Proof. apply map_frame; concrete. Defined.

(** C7. For every grid and every capacity, a scan that returns has,
    at every point of its log of stores, written at most
    [min_max_length] entries to the maxima list and at most
    [min_max_length] to the minima list. *)
Theorem lists_within_capacity data imax jmax min_max_length st st' :
  is_size min_max_length → is_int (min_index st) → trace st = [] →
  cextrema data imax jmax min_max_length st = Some st' →
  ∀ p q, trace st' = p ++ q →
    maxima_written p <= min_max_length ∧
    minima_written p <= min_max_length.
Proof.
  intros Hcap Hn Htr Hrun p q Hpq.
  destruct (cextrema_maxima_written data imax jmax _ Hcap st st' Htr Hrun)
    as (_ & Hmax & _).
  destruct (cextrema_minima_written data imax jmax _ Hcap st st' Hn Htr Hrun)
    as (_ & Hmin & _).
  rewrite Hpq in Hmax, Hmin.
  pose proof (maxima_written_prefix p q).
  pose proof (minima_written_prefix p q). lia.
Qed.

Lemma lists_within_capacity_witness :
  ∃ st', cextrema flat_3x4 3 4 1 (fresh 12 1) = Some st' ∧
    ∀ p q, trace st' = p ++ q →
      maxima_written p <= 1 ∧ minima_written p <= 1.
Proof.
  eexists. split.
  - vm_compute. reflexivity.
  - apply (lists_within_capacity flat_3x4 3 4 1 (fresh 12 1));
      [concrete|concrete|reflexivity|vm_compute; reflexivity].
Defined.

(** C10. On a grid of at least 3x3, with buffers that hold what is
    declared, the scan returns: no access of it leaves its buffer.
    Every store into the map has its index in [0, imax*jmax), every
    store into a list has its index in [0, min_max_length), and every
    read of the 3x3 block of an interior cell has its index, as the
    scan computes it, in [0, imax*jmax) and inside [data]. *)
Theorem accesses_in_bounds data imax jmax min_max_length st :
  grid_ok data imax jmax →
  outputs_ok imax jmax min_max_length st →
  (∃ st', cextrema data imax jmax min_max_length st = Some st' ∧
          Forall (event_ok imax jmax min_max_length) (trace st')) ∧
  (∀ i j inner_i inner_j, interior imax jmax i j →
     size_wrap (i - 1) <= inner_i < size_wrap (i + 2) →
     size_wrap (j - 1) <= inner_j < size_wrap (j + 2) →
     0 <= size_wrap (inner_i * jmax + inner_j) < imax * jmax ∧
     is_Some (load data (size_wrap (inner_i * jmax + inner_j)))).
Proof.
  intros Hgrid (Hroom & Hcap & Hn & Htr). split.
  - destruct (cextrema_total data imax jmax _ Hgrid Hcap st Hroom Hn)
      as [st' Hrun].
    exists st'. split; [done|].
    by apply (cextrema_events_ok data imax jmax _ Hgrid Hcap st).
  - intros i j a b [Hi Hj].
    rewrite (row_small data imax jmax Hgrid (i - 1)),
            (row_small data imax jmax Hgrid (i + 2)),
            (col_small data imax jmax Hgrid (j - 1)),
            (col_small data imax jmax Hgrid (j + 2)) by lia.
    intros Ha Hb.
    rewrite (cell_index_wrap data imax jmax Hgrid a b) by lia.
    destruct (cell_index_range data imax jmax Hgrid a b) as [Hidx _];
      [lia..|].
    split; [done|].
    destruct (grid_Some data imax jmax Hgrid a b) as [v Hv]; [lia..|].
    by exists v.
Qed.

Lemma accesses_in_bounds_witness :
  (∃ st', cextrema pit_3x3 3 3 4 (fresh 9 4) = Some st' ∧
          Forall (event_ok 3 3 4) (trace st')) ∧
  (∀ i j inner_i inner_j, interior 3 3 i j →
     size_wrap (i - 1) <= inner_i < size_wrap (i + 2) →
     size_wrap (j - 1) <= inner_j < size_wrap (j + 2) →
     0 <= size_wrap (inner_i * 3 + inner_j) < 3 * 3 ∧
     is_Some (load pit_3x3 (size_wrap (inner_i * 3 + inner_j)))).
Proof. apply accesses_in_bounds; concrete. Defined.

(** * Further properties of the scan *)

Section Minima.

Variable data : list float.
Variables imax jmax min_max_length : Z.
Hypothesis Hgrid : grid_ok data imax jmax.

(** While the minima list is not full, every interior cell with a
    greater neighbour and no smaller one is stored [-1]. A list that is
    full stays full, so the test at the end of the scan speaks for the
    whole scan. *)
Lemma cextrema_minima_marked st st' :
  cextrema data imax jmax min_max_length st = Some st' →
  (size_of_int (min_index st') <? min_max_length) = true →
  ∀ a b, interior imax jmax a b →
         ¬ no_greater data jmax a b → no_smaller data jmax a b →
         sets jmax (trace st') a b f_minus_one.
Proof using Hgrid.
  intros Hrun G a b Hint Hgt Hlt.
  cut (∀ a b, before 1 1 (jmax - 1) (imax - 1) 1 a b →
              ¬ no_greater data jmax a b → no_smaller data jmax a b →
              sets jmax (trace st') a b f_minus_one).
  { intros H. apply H; [|done..]. apply before_end.
    unfold interior in Hint. lia. }
  revert Hrun G. clear a b Hint Hgt Hlt.
  apply (cextrema_inv_grid data imax jmax _ Hgrid
           (λ i j s, (size_of_int (min_index s) <? min_max_length) = true →
                     ∀ a b, before 1 1 (jmax - 1) i j a b →
                            ¬ no_greater data jmax a b →
                            no_smaller data jmax a b →
                            sets jmax (trace s) a b f_minus_one)).
  - intros i s Hi H G a b Hb. apply H; [done|]. by apply before_next_row.
  - intros _ a b Hb. by apply before_start in Hb.
  - intros i j s fmax fmin s' Hint Hs Hmax Hmin Hstep G a b Hb Hgt Hlt.
    pose proof (interior_wrap data imax jmax Hgrid i j Hint) as Hw.
    apply before_step in Hb; [|unfold interior in Hint; lia..].
    destruct Hb as [Hb|[-> ->]].
    + destruct Hstep as [? _ _ _ _|? _ _|G' _ _ _|G'|]; simpl in *;
        try (specialize (Hs G a b Hb Hgt Hlt));
        try (specialize (Hs G' a b Hb Hgt Hlt));
        try congruence; unfold sets in *; try log_mem; done.
    + destruct Hstep as [? _ _ _ _|? _ _|G' _ _ _|G'|]; simpl in *;
        rewrite ?Hw; try congruence.
      * exfalso. apply Hgt. by apply Hmax.
      * exfalso. apply Hgt. by apply Hmax.
      * unfold sets. log_mem.
      * apply Hmin in Hlt. discriminate.
Qed.

End Minima.

(** X1. On a grid of at least 3x3 the scan returns, and an interior
    cell is stored [+1] exactly when no cell of its 3x3 block is
    strictly greater than it; such a cell holds [+1] after the scan,
    whatever the capacity and whatever its smaller neighbours. *)
Theorem maximum_exactly data imax jmax min_max_length st :
  grid_ok data imax jmax →
  outputs_ok imax jmax min_max_length st →
  ∃ st', cextrema data imax jmax min_max_length st = Some st' ∧
    ∀ i j, interior imax jmax i j →
      (sets jmax (trace st') i j f_one ↔ no_greater data jmax i j) ∧
      (no_greater data jmax i j →
       grid (extrema st') jmax i j = Some f_one).
Proof.
  intros Hgrid (Hroom & Hcap & Hn & Htr).
  destruct (cextrema_total data imax jmax _ Hgrid Hcap st Hroom Hn)
    as [st' Hrun].
  exists st'. split; [done|]. intros i j Hint. split; [split|].
  - intros Hset.
    destruct (cextrema_map_events data imax jmax _ Hgrid st st' Htr Hrun
                _ _ Hset) as (a & b & Hab & E & Hc).
    apply (interior_inj imax jmax) in E as [-> ->]; [|done..].
    destruct Hc as [[_ ?]|(? & _)]; done.
  - by apply (cextrema_maxima_marked data imax jmax min_max_length Hgrid st).
  - by apply (maximum_takes_priority data imax jmax min_max_length Hgrid st).
Qed.

Lemma maximum_exactly_witness :
  ∃ st', cextrema peak_3x3 3 3 4 (fresh 9 4) = Some st' ∧
    ∀ i j, interior 3 3 i j →
      (sets 3 (trace st') i j f_one ↔ no_greater peak_3x3 3 i j) ∧
      (no_greater peak_3x3 3 i j →
       grid (extrema st') 3 i j = Some f_one).
Proof. apply maximum_exactly; concrete. Defined.

(** X2. On a grid of at least 3x3 the scan returns, and an interior
    cell stored [-1] has a strictly greater cell in its 3x3 block and
    no strictly smaller one, and holds [-1] after the scan. Conversely,
    when the minima list is not full at the end of the scan, every
    interior cell with a greater neighbour and no smaller one is stored
    [-1]. *)
Theorem minimum_exactly data imax jmax min_max_length st :
  grid_ok data imax jmax →
  outputs_ok imax jmax min_max_length st →
  ∃ st', cextrema data imax jmax min_max_length st = Some st' ∧
    ∀ i j, interior imax jmax i j →
      (sets jmax (trace st') i j f_minus_one →
       ¬ no_greater data jmax i j ∧ no_smaller data jmax i j ∧
       grid (extrema st') jmax i j = Some f_minus_one) ∧
      ((size_of_int (min_index st') <? min_max_length) = true →
       ¬ no_greater data jmax i j → no_smaller data jmax i j →
       sets jmax (trace st') i j f_minus_one).
Proof.
  intros Hgrid (Hroom & Hcap & Hn & Htr).
  destruct (cextrema_total data imax jmax _ Hgrid Hcap st Hroom Hn)
    as [st' Hrun].
  exists st'. split; [done|]. intros i j Hint.
  pose proof (cextrema_map_events data imax jmax _ Hgrid st st' Htr Hrun)
    as Hev.
  split.
  - intros Hset.
    assert (Hc : ¬ no_greater data jmax i j ∧ no_smaller data jmax i j).
    { destruct (Hev _ _ Hset) as (a & b & Hab & E & Hc).
      apply (interior_inj imax jmax) in E as [-> ->]; [|done..].
      destruct Hc as [[? _]|(_ & ? & ?)]; done. }
    destruct Hc as [Hgt Hlt]. do 2 (split; [done|]).
    apply (written_cell data imax jmax min_max_length Hgrid st);
      try done.
    intros w Hw. destruct (Hev _ _ Hw) as (a & b & Hab & E & Hc).
    apply (interior_inj imax jmax) in E as [-> ->]; [|done..].
    destruct Hc as [[_ ?]|(? & _)]; done.
  - intros G.
    by apply (cextrema_minima_marked data imax jmax min_max_length Hgrid st).
Qed.

Lemma minimum_exactly_witness :
  ∃ st', cextrema pit_3x3 3 3 4 (fresh 9 4) = Some st' ∧
    ∀ i j, interior 3 3 i j →
      (sets 3 (trace st') i j f_minus_one →
       ¬ no_greater pit_3x3 3 i j ∧ no_smaller pit_3x3 3 i j ∧
       grid (extrema st') 3 i j = Some f_minus_one) ∧
      ((size_of_int (min_index st') <? 4) = true →
       ¬ no_greater pit_3x3 3 i j → no_smaller pit_3x3 3 i j →
       sets 3 (trace st') i j f_minus_one).
Proof. apply minimum_exactly; concrete. Defined.

(** Comparisons with a NaN are false. *)
Lemma float_gt_nan_r v : float_gt v S754_nan = false.
Proof. reflexivity. Qed.

Lemma float_gt_nan_l c : float_gt S754_nan c = false.
Proof. unfold float_gt, SFltb. by destruct c as [[]|[]| |[] m e]. Qed.

(** X3. NaN samples: on a grid of at least 3x3, an interior cell that
    holds a NaN, or all of whose eight neighbours hold a NaN, is stored
    [+1], never [-1], and holds [+1] after the scan. *)
Theorem nan_is_maximum data imax jmax min_max_length st i j :
  grid_ok data imax jmax →
  outputs_ok imax jmax min_max_length st →
  interior imax jmax i j →
  grid data jmax i j = Some S754_nan ∨
  (∀ di dj, -1 <= di <= 1 → -1 <= dj <= 1 → di ≠ 0 ∨ dj ≠ 0 →
            grid data jmax (i + di) (j + dj) = Some S754_nan) →
  ∃ st', cextrema data imax jmax min_max_length st = Some st' ∧
    sets jmax (trace st') i j f_one ∧
    ¬ sets jmax (trace st') i j f_minus_one ∧
    grid (extrema st') jmax i j = Some f_one.
Proof.
  intros Hgrid (Hroom & Hcap & Hn & Htr) Hint Hnan.
  destruct (cextrema_total data imax jmax _ Hgrid Hcap st Hroom Hn)
    as [st' Hrun].
  exists st'. split; [done|].
  assert (Hmax : no_greater data jmax i j).
  { intros di dj c v Hdi Hdj Hc Hv. destruct Hnan as [Hc'|Hnb].
    - rewrite Hc in Hc'. injection Hc' as ->. apply float_gt_nan_r.
    - destruct (decide (di = 0 ∧ dj = 0)) as [[-> ->]|Hne].
      + rewrite !Z.add_0_r, Hc in Hv. injection Hv as ->.
        apply float_gt_irrefl.
      + rewrite (Hnb di dj) in Hv by lia. injection Hv as <-.
        apply float_gt_nan_l. }
  split; [|split].
  - by apply (cextrema_maxima_marked data imax jmax min_max_length Hgrid st).
  - intros Hset.
    by pose proof (maximum_not_minimum data imax jmax min_max_length Hgrid
                     st st' i j Htr Hrun Hint Hmax _ Hset).
  - by apply (maximum_takes_priority data imax jmax min_max_length Hgrid st).
Qed.

Lemma nan_is_maximum_witness :
  ∃ st', cextrema (replicate 4 f_zero ++ [S754_nan] ++ replicate 4 f_one)
           3 3 4 (fresh 9 4) = Some st' ∧
    sets 3 (trace st') 1 1 f_one ∧
    ¬ sets 3 (trace st') 1 1 f_minus_one ∧
    grid (extrema st') 3 1 1 = Some f_one.
Proof. apply nan_is_maximum; try concrete. by left. Defined.

(** A cell is stored [+1] exactly when it has no greater neighbour. *)
Lemma marked_iff_no_greater data imax jmax min_max_length st st' i j :
  grid_ok data imax jmax → trace st = [] →
  cextrema data imax jmax min_max_length st = Some st' →
  interior imax jmax i j →
  sets jmax (trace st') i j f_one ↔ no_greater data jmax i j.
Proof.
  intros Hgrid Htr Hrun Hint. split.
  - intros Hset.
    destruct (cextrema_map_events data imax jmax _ Hgrid st st' Htr Hrun
                _ _ Hset) as (a & b & Hab & E & Hc).
    apply (interior_inj imax jmax) in E as [-> ->]; [|done..].
    destruct Hc as [[_ ?]|(? & _)]; done.
  - by apply (cextrema_maxima_marked data imax jmax min_max_length Hgrid st).
Qed.

(** Having no greater neighbour is a matter of the 3x3 block. *)
Lemma no_greater_local data data' jmax i j :
  (∀ di dj, -1 <= di <= 1 → -1 <= dj <= 1 →
     grid data jmax (i + di) (j + dj) = grid data' jmax (i + di) (j + dj)) →
  no_greater data jmax i j → no_greater data' jmax i j.
Proof.
  intros Hblock Hmax di dj c v Hdi Hdj Hc Hv.
  apply (Hmax di dj c v); try done.
  - specialize (Hblock 0 0 ltac:(lia) ltac:(lia)).
    rewrite !Z.add_0_r in Hblock. by rewrite Hblock.
  - by rewrite Hblock.
Qed.

(** X4. The [+1] mark of a cell depends on the nine samples of its 3x3
    block only: two scans, of two grids of the same width that agree on
    the block of an interior cell, with any two capacities and any two
    sets of outputs, both store [+1] for the cell or neither does. *)
Theorem maximum_is_local data data' imax imax' jmax
    min_max_length min_max_length' st1 st2 i j :
  grid_ok data imax jmax → grid_ok data' imax' jmax →
  outputs_ok imax jmax min_max_length st1 →
  outputs_ok imax' jmax min_max_length' st2 →
  interior imax jmax i j → interior imax' jmax i j →
  (∀ di dj, -1 <= di <= 1 → -1 <= dj <= 1 →
     grid data jmax (i + di) (j + dj) = grid data' jmax (i + di) (j + dj)) →
  ∃ st1' st2',
    cextrema data imax jmax min_max_length st1 = Some st1' ∧
    cextrema data' imax' jmax min_max_length' st2 = Some st2' ∧
    (sets jmax (trace st1') i j f_one ↔ sets jmax (trace st2') i j f_one).
Proof.
  intros Hg1 Hg2 (Hroom1 & Hcap1 & Hn1 & Htr1) (Hroom2 & Hcap2 & Hn2 & Htr2)
    Hint1 Hint2 Hblock.
  destruct (cextrema_total data imax jmax _ Hg1 Hcap1 st1 Hroom1 Hn1)
    as [st1' Hrun1].
  destruct (cextrema_total data' imax' jmax _ Hg2 Hcap2 st2 Hroom2 Hn2)
    as [st2' Hrun2].
  exists st1', st2'. do 2 (split; [done|]).
  rewrite (marked_iff_no_greater data imax jmax _ st1 st1' i j Hg1 Htr1
             Hrun1 Hint1).
  rewrite (marked_iff_no_greater data' imax' jmax _ st2 st2' i j Hg2 Htr2
             Hrun2 Hint2).
  split; apply no_greater_local; [done|]. intros di dj Hdi Hdj.
  symmetry. by apply Hblock.
Qed.

Lemma maximum_is_local_witness :
  ∃ st1' st2',
    cextrema peak_3x3 3 3 4 (fresh 9 4) = Some st1' ∧
    cextrema (peak_3x3 ++ replicate 3 f_one) 4 3 0 (fresh 12 0) = Some st2' ∧
    (sets 3 (trace st1') 1 1 f_one ↔ sets 3 (trace st2') 1 1 f_one).
Proof.
  apply maximum_is_local; try concrete.
  intros di dj Hdi Hdj.
  assert (Hd : (di = -1 ∨ di = 0 ∨ di = 1) ∧ (dj = -1 ∨ dj = 0 ∨ dj = 1))
    by lia.
  destruct Hd as [[->| [->| ->]] [->| [->| ->]]]; reflexivity.
Defined.

(** ** The lists in memory *)

Section Entries.

Variable data : list float.
Variables imax jmax min_max_length : Z.
Hypothesis Hgrid : grid_ok data imax jmax.
Hypothesis Hrows : imax <= INT_MAX.
Hypothesis Hcols : jmax <= INT_MAX.

Lemma interior_int i j :
  interior imax jmax i j → int_wrap i = i ∧ int_wrap j = j.
Proof using Hrows Hcols.
  intros [Hi Hj].
  split; apply int_wrap_small; unfold is_int, INT_MIN, INT_MAX in *; lia.
Qed.

(** Slots [0 .. maxima_length - 1] of the maxima list: each holds the
    coordinates of an interior cell stored [+1], and the cells come in
    the order of the visits. *)
Lemma cextrema_maxima_entries st st' :
  trace st = [] →
  cextrema data imax jmax min_max_length st = Some st' →
  (∀ k, 0 <= k < maxima_length st' →
     ∃ x y, maxima_x st' !! Z.to_nat k = Some x ∧
            maxima_y st' !! Z.to_nat k = Some y ∧
            interior imax jmax x y ∧ sets jmax (trace st') x y f_one) ∧
  (∀ k k' x y x' y', 0 <= k → k < k' → k' < maxima_length st' →
     maxima_x st' !! Z.to_nat k = Some x →
     maxima_y st' !! Z.to_nat k = Some y →
     maxima_x st' !! Z.to_nat k' = Some x' →
     maxima_y st' !! Z.to_nat k' = Some y' →
     scan_order x y x' y').
Proof using Hgrid Hrows Hcols.
  intros Htr Hrun.
  cut (is_int (maxima_length st') ∧
       (∀ k, 0 <= k < maxima_length st' →
          ∃ x y, maxima_x st' !! Z.to_nat k = Some x ∧
                 maxima_y st' !! Z.to_nat k = Some y ∧
                 before 1 1 (jmax - 1) (imax - 1) 1 x y ∧
                 sets jmax (trace st') x y f_one) ∧
       (∀ k k' x y x' y', 0 <= k → k < k' → k' < maxima_length st' →
          maxima_x st' !! Z.to_nat k = Some x →
          maxima_y st' !! Z.to_nat k = Some y →
          maxima_x st' !! Z.to_nat k' = Some x' →
          maxima_y st' !! Z.to_nat k' = Some y' →
          scan_order x y x' y')).
  { intros (_ & Hent & Hord). split; [|done]. intros k Hk.
    destruct (Hent k Hk) as (x & y & ? & ? & Hb%before_end & ?).
    exists x, y. do 2 (split; [done|]). split; [|done].
    unfold interior. lia. }
  revert Hrun.
  apply (cextrema_inv_grid data imax jmax _ Hgrid
    (λ i j s, is_int (maxima_length s) ∧
       (∀ k, 0 <= k < maxima_length s →
          ∃ x y, maxima_x s !! Z.to_nat k = Some x ∧
                 maxima_y s !! Z.to_nat k = Some y ∧
                 before 1 1 (jmax - 1) i j x y ∧
                 sets jmax (trace s) x y f_one) ∧
       (∀ k k' x y x' y', 0 <= k → k < k' → k' < maxima_length s →
          maxima_x s !! Z.to_nat k = Some x →
          maxima_y s !! Z.to_nat k = Some y →
          maxima_x s !! Z.to_nat k' = Some x' →
          maxima_y s !! Z.to_nat k' = Some y' →
          scan_order x y x' y'))).
  - intros i s Hi (Hm & Hent & Hord). split; [done|]. split; [|done].
    intros k Hk. destruct (Hent k Hk) as (x & y & ? & ? & Hb & ?).
    exists x, y. do 2 (split; [done|]). split; [|done].
    by apply before_next_row.
  - simpl. split; [by vm_compute|]. split; intros; lia.
  - intros i j s fmax fmin s' Hint (Hm & Hent & Hord) _ _ Hstep.
    pose proof (interior_wrap data imax jmax Hgrid i j Hint) as Hw.
    destruct (interior_int i j Hint) as [Ei Ej].
    assert (Hkeep : ∀ tr' k, 0 <= k < maxima_length s →
              ∃ x y, maxima_x s !! Z.to_nat k = Some x ∧
                     maxima_y s !! Z.to_nat k = Some y ∧
                     before 1 1 (jmax - 1) i (j + 1) x y ∧
                     sets jmax (trace s ++ tr') x y f_one).
    { intros tr' k Hk. destruct (Hent k Hk) as (x & y & ? & ? & Hb & Hs).
      exists x, y. do 2 (split; [done|]). split.
      - apply before_step; [unfold interior in Hint; lia..|]. by left.
      - unfold sets in *. log_mem. }
    destruct Hstep as [? _ _ Hkx Hky|? _ _|_ _ _ _| |]; simpl.
    + (* a new entry in slot maxima_length *)
      unfold slot in Hkx, Hky. rewrite Hw, Ei, Ej.
      split; [apply int_wrap_is_int|].
      destruct (int_wrap_succ _ Hm) as [->|Hneg]; [|split; intros; lia].
      split.
      * intros k Hk. destruct (decide (k = maxima_length s)) as [->|Hne].
        -- exists i, j. rewrite !list_lookup_insert_eq by lia.
           do 2 (split; [done|]). split.
           ++ apply before_step; [unfold interior in Hint; lia..|].
              by right.
           ++ unfold sets. log_mem.
        -- rewrite !list_lookup_insert_ne by lia.
           destruct (Hkeep [Store_extrema (i * jmax + j) f_one;
                            Store_maxima_x (maxima_length s) i;
                            Store_maxima_y (maxima_length s) j] k)
             as (x & y & ? & ? & ? & Hs); [lia|].
           exists x, y. do 3 (split; [done|]).
           unfold sets in *. revert Hs. simpl.
           rewrite ?elem_of_app, ?elem_of_cons, ?list_elem_of_singleton.
           tauto.
      * intros k k' x y x' y' H0 Hlt Hk'.
        rewrite !(list_lookup_insert_ne _ _ (Z.to_nat k)) by lia.
        destruct (decide (k' = maxima_length s)) as [->|Hne].
        -- rewrite !list_lookup_insert_eq by lia.
           intros Hx Hy [= <-] [= <-].
           destruct (Hent k ltac:(lia)) as (x0 & y0 & Hx0 & Hy0 & Hb & _).
           rewrite Hx in Hx0. rewrite Hy in Hy0.
           injection Hx0 as <-. injection Hy0 as <-.
           unfold before in Hb. unfold scan_order. lia.
        -- rewrite !list_lookup_insert_ne by lia. apply Hord; lia.
    + rewrite Hw. split; [done|]. split; [|done]. intros k Hk.
      apply (Hkeep [Store_extrema (i * jmax + j) f_one] k Hk).
    + rewrite Hw. split; [done|]. split; [|done]. intros k Hk.
      destruct (Hkeep [Store_extrema (i * jmax + j) f_minus_one;
                       Store_minima_x (min_index s) (int_wrap i);
                       Store_minima_y (min_index s) (int_wrap j)] k Hk)
        as (x & y & ? & ? & ? & Hs).
      exists x, y. do 3 (split; [done|]).
      unfold sets in *. revert Hs. simpl.
      rewrite ?elem_of_app, ?elem_of_cons, ?list_elem_of_singleton. tauto.
    + split; [done|]. split; [|done]. intros k Hk.
      destruct (Hkeep [] k Hk) as (x & y & ? & ? & ? & Hs).
      exists x, y. do 3 (split; [done|]). by rewrite app_nil_r in Hs.
    + split; [done|]. split; [|done]. intros k Hk.
      destruct (Hkeep [] k Hk) as (x & y & ? & ? & ? & Hs).
      exists x, y. do 3 (split; [done|]). by rewrite app_nil_r in Hs.
Qed.

(** The slots of the minima list from the [min_index] of entry up to
    the [min_index] of exit: each holds the coordinates of an interior
    cell stored [-1], and the cells come in the order of the visits. *)
Lemma cextrema_minima_entries st st' :
  is_int (min_index st) → trace st = [] →
  cextrema data imax jmax min_max_length st = Some st' →
  (∀ k, 0 <= k → min_index st <= k < min_index st' →
     ∃ x y, minima_x st' !! Z.to_nat k = Some x ∧
            minima_y st' !! Z.to_nat k = Some y ∧
            interior imax jmax x y ∧
            sets jmax (trace st') x y f_minus_one) ∧
  (∀ k k' x y x' y', 0 <= k → min_index st <= k → k < k' →
     k' < min_index st' →
     minima_x st' !! Z.to_nat k = Some x →
     minima_y st' !! Z.to_nat k = Some y →
     minima_x st' !! Z.to_nat k' = Some x' →
     minima_y st' !! Z.to_nat k' = Some y' →
     scan_order x y x' y').
Proof using Hgrid Hrows Hcols.
  intros Hn Htr Hrun.
  cut (is_int (min_index st') ∧
       (∀ k, 0 <= k → min_index st <= k < min_index st' →
          ∃ x y, minima_x st' !! Z.to_nat k = Some x ∧
                 minima_y st' !! Z.to_nat k = Some y ∧
                 before 1 1 (jmax - 1) (imax - 1) 1 x y ∧
                 sets jmax (trace st') x y f_minus_one) ∧
       (∀ k k' x y x' y', 0 <= k → min_index st <= k → k < k' →
          k' < min_index st' →
          minima_x st' !! Z.to_nat k = Some x →
          minima_y st' !! Z.to_nat k = Some y →
          minima_x st' !! Z.to_nat k' = Some x' →
          minima_y st' !! Z.to_nat k' = Some y' →
          scan_order x y x' y')).
  { intros (_ & Hent & Hord). split; [|done]. intros k H0 Hk.
    destruct (Hent k H0 Hk) as (x & y & ? & ? & Hb%before_end & ?).
    exists x, y. do 2 (split; [done|]). split; [|done].
    unfold interior. lia. }
  revert Hrun.
  apply (cextrema_inv_grid data imax jmax _ Hgrid
    (λ i j s, is_int (min_index s) ∧
       (∀ k, 0 <= k → min_index st <= k < min_index s →
          ∃ x y, minima_x s !! Z.to_nat k = Some x ∧
                 minima_y s !! Z.to_nat k = Some y ∧
                 before 1 1 (jmax - 1) i j x y ∧
                 sets jmax (trace s) x y f_minus_one) ∧
       (∀ k k' x y x' y', 0 <= k → min_index st <= k → k < k' →
          k' < min_index s →
          minima_x s !! Z.to_nat k = Some x →
          minima_y s !! Z.to_nat k = Some y →
          minima_x s !! Z.to_nat k' = Some x' →
          minima_y s !! Z.to_nat k' = Some y' →
          scan_order x y x' y'))).
  - intros i s Hi (Hm & Hent & Hord). split; [done|]. split; [|done].
    intros k H0 Hk. destruct (Hent k H0 Hk) as (x & y & ? & ? & Hb & ?).
    exists x, y. do 2 (split; [done|]). split; [|done].
    by apply before_next_row.
  - simpl. split; [done|]. split; intros; lia.
  - intros i j s fmax fmin s' Hint (Hm & Hent & Hord) _ _ Hstep.
    pose proof (interior_wrap data imax jmax Hgrid i j Hint) as Hw.
    destruct (interior_int i j Hint) as [Ei Ej].
    assert (Hkeep : ∀ tr' k, 0 <= k → min_index st <= k < min_index s →
              ∃ x y, minima_x s !! Z.to_nat k = Some x ∧
                     minima_y s !! Z.to_nat k = Some y ∧
                     before 1 1 (jmax - 1) i (j + 1) x y ∧
                     sets jmax (trace s ++ tr') x y f_minus_one).
    { intros tr' k H0 Hk.
      destruct (Hent k H0 Hk) as (x & y & ? & ? & Hb & Hs).
      exists x, y. do 2 (split; [done|]). split.
      - apply before_step; [unfold interior in Hint; lia..|]. by left.
      - unfold sets in *. log_mem. }
    destruct Hstep as [? _ _ _ _|? _ _|_ _ Hkx Hky| |]; simpl.
    + rewrite Hw. split; [done|]. split; [|done]. intros k H0 Hk.
      destruct (Hkeep [Store_extrema (i * jmax + j) f_one;
                       Store_maxima_x (maxima_length s) (int_wrap i);
                       Store_maxima_y (maxima_length s) (int_wrap j)] k H0 Hk)
        as (x & y & ? & ? & ? & Hs).
      exists x, y. do 3 (split; [done|]).
      unfold sets in *. revert Hs. simpl.
      rewrite ?elem_of_app, ?elem_of_cons, ?list_elem_of_singleton. tauto.
    + rewrite Hw. split; [done|]. split; [|done]. intros k H0 Hk.
      apply (Hkeep [Store_extrema (i * jmax + j) f_one] k H0 Hk).
    + (* a new entry in slot min_index *)
      unfold slot in Hkx, Hky. rewrite Hw, Ei, Ej.
      split; [apply int_wrap_is_int|].
      destruct (int_wrap_succ _ Hm) as [->|Hneg]; [|split; intros; lia].
      split.
      * intros k H0 Hk. destruct (decide (k = min_index s)) as [->|Hne].
        -- exists i, j. rewrite !list_lookup_insert_eq by lia.
           do 2 (split; [done|]). split.
           ++ apply before_step; [unfold interior in Hint; lia..|].
              by right.
           ++ unfold sets. log_mem.
        -- rewrite !list_lookup_insert_ne by lia.
           destruct (Hkeep [Store_extrema (i * jmax + j) f_minus_one;
                            Store_minima_x (min_index s) i;
                            Store_minima_y (min_index s) j] k)
             as (x & y & ? & ? & ? & Hs); [lia|lia|].
           exists x, y. do 3 (split; [done|]).
           unfold sets in *. revert Hs. simpl.
           rewrite ?elem_of_app, ?elem_of_cons, ?list_elem_of_singleton.
           tauto.
      * intros k k' x y x' y' H0 Hlo Hlt Hk'.
        rewrite !(list_lookup_insert_ne _ _ (Z.to_nat k)) by lia.
        destruct (decide (k' = min_index s)) as [->|Hne].
        -- rewrite !list_lookup_insert_eq by lia.
           intros Hx Hy [= <-] [= <-].
           destruct (Hent k ltac:(lia) ltac:(lia))
             as (x0 & y0 & Hx0 & Hy0 & Hb & _).
           rewrite Hx in Hx0. rewrite Hy in Hy0.
           injection Hx0 as <-. injection Hy0 as <-.
           unfold before in Hb. unfold scan_order. lia.
        -- rewrite !list_lookup_insert_ne by lia. apply Hord; lia.
    + split; [done|]. split; [|done]. intros k H0 Hk.
      destruct (Hkeep [] k H0 Hk) as (x & y & ? & ? & ? & Hs).
      exists x, y. do 3 (split; [done|]). by rewrite app_nil_r in Hs.
    + split; [done|]. split; [|done]. intros k H0 Hk.
      destruct (Hkeep [] k H0 Hk) as (x & y & ? & ? & ? & Hs).
      exists x, y. do 3 (split; [done|]). by rewrite app_nil_r in Hs.
Qed.

End Entries.

(** A cell stored [-1] has a greater neighbour, no smaller one, and
    holds [-1] after the scan. *)
Lemma stored_minimum data imax jmax min_max_length st st' i j :
  grid_ok data imax jmax → trace st = [] →
  room imax jmax min_max_length st →
  cextrema data imax jmax min_max_length st = Some st' →
  interior imax jmax i j →
  sets jmax (trace st') i j f_minus_one →
  ¬ no_greater data jmax i j ∧ no_smaller data jmax i j ∧
  grid (extrema st') jmax i j = Some f_minus_one.
Proof.
  intros Hgrid Htr Hroom Hrun Hint Hset.
  pose proof (cextrema_map_events data imax jmax _ Hgrid st st' Htr Hrun)
    as Hev.
  assert (Hc : ¬ no_greater data jmax i j ∧ no_smaller data jmax i j).
  { destruct (Hev _ _ Hset) as (a & b & Hab & E & Hc).
    apply (interior_inj imax jmax) in E as [-> ->]; [|done..].
    destruct Hc as [[? _]|(_ & ? & ?)]; done. }
  destruct Hc as [Hgt Hlt]. do 2 (split; [done|]).
  apply (written_cell data imax jmax min_max_length Hgrid st); try done.
  intros w Hw. destruct (Hev _ _ Hw) as (a & b & Hab & E & Hc).
  apply (interior_inj imax jmax) in E as [-> ->]; [|done..].
  destruct Hc as [[_ ?]|(? & _)]; done.
Qed.

(** X5. The maxima list as the caller reads it: on a grid of at least
    3x3 whose coordinates are [int] values the scan returns, and every
    slot [k] below the reported [maxima_length] holds in [maxima_x],
    [maxima_y] the coordinates of an interior cell that has no strictly
    greater cell in its 3x3 block and holds [+1] in the map. *)
Theorem reported_maxima_are_maxima data imax jmax min_max_length st :
  grid_ok data imax jmax →
  outputs_ok imax jmax min_max_length st →
  imax <= INT_MAX → jmax <= INT_MAX →
  ∃ st', cextrema data imax jmax min_max_length st = Some st' ∧
    ∀ k, 0 <= k < maxima_length st' →
      ∃ x y, maxima_x st' !! Z.to_nat k = Some x ∧
             maxima_y st' !! Z.to_nat k = Some y ∧
             interior imax jmax x y ∧ no_greater data jmax x y ∧
             grid (extrema st') jmax x y = Some f_one.
Proof.
  intros Hgrid (Hroom & Hcap & Hn & Htr) Hi Hj.
  destruct (cextrema_total data imax jmax _ Hgrid Hcap st Hroom Hn)
    as [st' Hrun].
  exists st'. split; [done|]. intros k Hk.
  destruct (cextrema_maxima_entries data imax jmax _ Hgrid Hi Hj st st'
              Htr Hrun) as [Hent _].
  destruct (Hent k Hk) as (x & y & Hx & Hy & Hint & Hset).
  exists x, y. do 3 (split; [done|]).
  apply (marked_iff_no_greater data imax jmax _ st st' x y Hgrid Htr Hrun
           Hint) in Hset.
  split; [done|].
  by apply (maximum_takes_priority data imax jmax min_max_length Hgrid st).
Qed.

Lemma reported_maxima_are_maxima_witness :
  ∃ st', cextrema flat_3x4 3 4 1 (fresh 12 1) = Some st' ∧
    ∀ k, 0 <= k < maxima_length st' →
      ∃ x y, maxima_x st' !! Z.to_nat k = Some x ∧
             maxima_y st' !! Z.to_nat k = Some y ∧
             interior 3 4 x y ∧ no_greater flat_3x4 4 x y ∧
             grid (extrema st') 4 x y = Some f_one.
Proof. apply reported_maxima_are_maxima; concrete. Defined.

(** X6. The minima list as the caller reads it. The scan reports no
    count for it; its entries lie in the slots from the [min_index] of
    entry up to the [min_index] of exit. On a grid of at least 3x3
    whose coordinates are [int] values, each of these slots holds in
    [minima_x], [minima_y] the coordinates of an interior cell that has
    a strictly greater cell in its 3x3 block, no strictly smaller one,
    and holds [-1] in the map. *)
Theorem recorded_minima_are_minima data imax jmax min_max_length st :
  grid_ok data imax jmax →
  outputs_ok imax jmax min_max_length st →
  imax <= INT_MAX → jmax <= INT_MAX →
  ∃ st', cextrema data imax jmax min_max_length st = Some st' ∧
    ∀ k, 0 <= k → min_index st <= k < min_index st' →
      ∃ x y, minima_x st' !! Z.to_nat k = Some x ∧
             minima_y st' !! Z.to_nat k = Some y ∧
             interior imax jmax x y ∧
             ¬ no_greater data jmax x y ∧ no_smaller data jmax x y ∧
             grid (extrema st') jmax x y = Some f_minus_one.
Proof.
  intros Hgrid (Hroom & Hcap & Hn & Htr) Hi Hj.
  destruct (cextrema_total data imax jmax _ Hgrid Hcap st Hroom Hn)
    as [st' Hrun].
  exists st'. split; [done|]. intros k H0 Hk.
  destruct (cextrema_minima_entries data imax jmax _ Hgrid Hi Hj st st'
              Hn Htr Hrun) as [Hent _].
  destruct (Hent k H0 Hk) as (x & y & Hx & Hy & Hint & Hset).
  exists x, y. do 3 (split; [done|]).
  by apply (stored_minimum data imax jmax min_max_length st st').
Qed.

Lemma recorded_minima_are_minima_witness :
  ∃ st', cextrema pit_3x3 3 3 4 (fresh 9 4) = Some st' ∧
    ∀ k, 0 <= k → min_index (fresh 9 4) <= k < min_index st' →
      ∃ x y, minima_x st' !! Z.to_nat k = Some x ∧
             minima_y st' !! Z.to_nat k = Some y ∧
             interior 3 3 x y ∧
             ¬ no_greater pit_3x3 3 x y ∧ no_smaller pit_3x3 3 x y ∧
             grid (extrema st') 3 x y = Some f_minus_one.
Proof. apply recorded_minima_are_minima; concrete. Defined.

(** X7. Both lists are in the order of the scan: on a grid of at least
    3x3 whose coordinates are [int] values, of two entries of the maxima
    list below [maxima_length] the one in the lower slot is the cell
    visited first (row by row, left to right), and so for two entries
    of the minima list between the [min_index] of entry and of exit.
    No cell is listed twice. *)
Theorem lists_in_scan_order data imax jmax min_max_length st :
  grid_ok data imax jmax →
  outputs_ok imax jmax min_max_length st →
  imax <= INT_MAX → jmax <= INT_MAX →
  ∃ st', cextrema data imax jmax min_max_length st = Some st' ∧
    (∀ k k' x y x' y', 0 <= k → k < k' → k' < maxima_length st' →
       maxima_x st' !! Z.to_nat k = Some x →
       maxima_y st' !! Z.to_nat k = Some y →
       maxima_x st' !! Z.to_nat k' = Some x' →
       maxima_y st' !! Z.to_nat k' = Some y' →
       scan_order x y x' y') ∧
    (∀ k k' x y x' y', 0 <= k → min_index st <= k → k < k' →
       k' < min_index st' →
       minima_x st' !! Z.to_nat k = Some x →
       minima_y st' !! Z.to_nat k = Some y →
       minima_x st' !! Z.to_nat k' = Some x' →
       minima_y st' !! Z.to_nat k' = Some y' →
       scan_order x y x' y').
Proof.
  intros Hgrid (Hroom & Hcap & Hn & Htr) Hi Hj.
  destruct (cextrema_total data imax jmax _ Hgrid Hcap st Hroom Hn)
    as [st' Hrun].
  exists st'. split; [done|]. split.
  - apply (cextrema_maxima_entries data imax jmax _ Hgrid Hi Hj st st'
             Htr Hrun).
  - apply (cextrema_minima_entries data imax jmax _ Hgrid Hi Hj st st'
             Hn Htr Hrun).
Qed.

Lemma lists_in_scan_order_witness :
  ∃ st', cextrema flat_3x4 3 4 2 (fresh 12 2) = Some st' ∧
    (∀ k k' x y x' y', 0 <= k → k < k' → k' < maxima_length st' →
       maxima_x st' !! Z.to_nat k = Some x →
       maxima_y st' !! Z.to_nat k = Some y →
       maxima_x st' !! Z.to_nat k' = Some x' →
       maxima_y st' !! Z.to_nat k' = Some y' →
       scan_order x y x' y') ∧
    (∀ k k' x y x' y', 0 <= k → min_index (fresh 12 2) <= k → k < k' →
       k' < min_index st' →
       minima_x st' !! Z.to_nat k = Some x →
       minima_y st' !! Z.to_nat k = Some y →
       minima_x st' !! Z.to_nat k' = Some x' →
       minima_y st' !! Z.to_nat k' = Some y' →
       scan_order x y x' y').
Proof. apply lists_in_scan_order; concrete. Defined.

(** ** What the scan leaves alone in the lists *)

(** X8. Frame of the lists, for every grid: with a capacity that is an
    [int] value and a non-negative [min_index], a scan that returns
    reports [0 <= maxima_length <= min_max_length], leaves [min_index]
    between its value of entry and the capacity (or where it was, if
    it was beyond), and has written the maxima list below
    [maxima_length] only and the minima list between the two values of
    [min_index] only: every other slot of the four arrays holds what it
    held before. *)
Theorem lists_frame data imax jmax min_max_length st st' :
  is_size min_max_length → min_max_length <= INT_MAX →
  0 <= min_index st <= INT_MAX →
  cextrema data imax jmax min_max_length st = Some st' →
  0 <= maxima_length st' <= min_max_length ∧
  min_index st <= min_index st' <= Z.max min_max_length (min_index st) ∧
  (∀ n, maxima_length st' <= Z.of_nat n →
     maxima_x st' !! n = maxima_x st !! n ∧
     maxima_y st' !! n = maxima_y st !! n) ∧
  (∀ n, Z.of_nat n < min_index st ∨ min_index st' <= Z.of_nat n →
     minima_x st' !! n = minima_x st !! n ∧
     minima_y st' !! n = minima_y st !! n).
Proof.
  intros Hcap Hint Hn.
  apply (cextrema_inv data imax jmax min_max_length
    (λ s, 0 <= maxima_length s <= min_max_length ∧
          min_index st <= min_index s <= Z.max min_max_length (min_index st) ∧
          (∀ n, maxima_length s <= Z.of_nat n →
             maxima_x s !! n = maxima_x st !! n ∧
             maxima_y s !! n = maxima_y st !! n) ∧
          (∀ n, Z.of_nat n < min_index st ∨ min_index s <= Z.of_nat n →
             minima_x s !! n = minima_x st !! n ∧
             minima_y s !! n = minima_y st !! n))).
  { simpl. unfold is_size in Hcap. repeat split; try done; lia. }
  intros i j s fmax fmin s' (Hm & Hk & Hmax & Hmin) Hstep.
  destruct Hstep as [? _ G _ _|? _ _|G _ _ _| |]; simpl; try done.
  - apply Z.ltb_lt in G.
    rewrite size_of_int_nonneg in G
      by (unfold is_int, INT_MIN, INT_MAX in *; lia).
    rewrite int_wrap_small by (unfold is_int, INT_MIN, INT_MAX in *; lia).
    split; [lia|]. split; [done|]. split; [|done].
    intros n Hn'. rewrite !list_lookup_insert_ne by lia. apply Hmax. lia.
  - apply Z.ltb_lt in G.
    rewrite size_of_int_nonneg in G
      by (unfold is_int, INT_MIN, INT_MAX in *; lia).
    rewrite int_wrap_small by (unfold is_int, INT_MIN, INT_MAX in *; lia).
    split; [done|]. split; [lia|]. split; [done|].
    intros n Hn'. rewrite !list_lookup_insert_ne by lia. apply Hmin. lia.
Qed.

Lemma lists_frame_witness :
  ∃ st', cextrema pit_3x3 3 3 4 (fresh 9 4) = Some st' ∧
  0 <= maxima_length st' <= 4 ∧
  min_index (fresh 9 4) <= min_index st'
    <= Z.max 4 (min_index (fresh 9 4)) ∧
  (∀ n, maxima_length st' <= Z.of_nat n →
     maxima_x st' !! n = maxima_x (fresh 9 4) !! n ∧
     maxima_y st' !! n = maxima_y (fresh 9 4) !! n) ∧
  (∀ n, Z.of_nat n < min_index (fresh 9 4) ∨ min_index st' <= Z.of_nat n →
     minima_x st' !! n = minima_x (fresh 9 4) !! n ∧
     minima_y st' !! n = minima_y (fresh 9 4) !! n).
Proof.
  eexists. split.
  - vm_compute. reflexivity.
  - apply (lists_frame pit_3x3 3 3 4 (fresh 9 4));
      [concrete|concrete|concrete|vm_compute; reflexivity].
Defined.

Lemma maxima_marked_snoc tr e :
  maxima_marked (tr ++ [e]) =
  maxima_marked tr + (if is_maximum_store e then 1 else 0).
Proof.
  unfold maxima_marked. rewrite filter_app, length_app.
  destruct (is_maximum_store e) eqn:E.
  - rewrite filter_cons_True by done. simpl. lia.
  - rewrite filter_cons_False by (rewrite E; done). simpl. lia.
Qed.

(** X9. Truncation, for every grid: with a capacity that is an [int]
    value, the [maxima_length] a scan reports is the number of cells it
    stored [+1], or the capacity if that is less. *)
Theorem maxima_length_is_truncated_count
    data imax jmax min_max_length st st' :
  is_size min_max_length → min_max_length <= INT_MAX → trace st = [] →
  cextrema data imax jmax min_max_length st = Some st' →
  maxima_length st' = Z.min min_max_length (maxima_marked (trace st')).
Proof.
  intros Hcap Hint Htr.
  apply (cextrema_inv data imax jmax min_max_length
    (λ s, maxima_length s =
          Z.min min_max_length (maxima_marked (trace s)))).
  { simpl. rewrite Htr. unfold is_size in Hcap.
    unfold maxima_marked. simpl. lia. }
  intros i j s fmax fmin s' Hs Hstep.
  assert (H0 : 0 <= maxima_marked (trace s))
    by (unfold maxima_marked; lia).
  unfold is_size in Hcap.
  destruct Hstep as [? _ G _ _|? _ G|_ _ _ _| |]; simpl;
    rewrite ?maxima_marked_snoc; simpl; rewrite ?Z.add_0_r; try done.
  - apply Z.ltb_lt in G.
    rewrite size_of_int_nonneg in G
      by (unfold is_int, INT_MIN, INT_MAX in *; lia).
    rewrite int_wrap_small by (unfold is_int, INT_MIN, INT_MAX in *; lia).
    lia.
  - apply Z.ltb_ge in G.
    rewrite size_of_int_nonneg in G
      by (unfold is_int, INT_MIN, INT_MAX in *; lia).
    lia.
Qed.

Lemma maxima_length_is_truncated_count_witness :
  ∃ st', cextrema flat_3x4 3 4 1 (fresh 12 1) = Some st' ∧
    maxima_length st' = Z.min 1 (maxima_marked (trace st')).
Proof.
  eexists. split.
  - vm_compute. reflexivity.
  - apply (maxima_length_is_truncated_count flat_3x4 3 4 1 (fresh 12 1));
      [concrete|concrete|reflexivity|vm_compute; reflexivity].
Defined.

(** ** Edges *)

(** X10. A [min_index] at or beyond the capacity on entry, as with a
    capacity of 0: on a grid of at least 3x3 the scan returns, stores
    no [-1], writes nothing to the minima list and leaves [min_index]
    as it was; every interior cell with a greater neighbour, minima
    included, holds afterwards what it held before. *)
Theorem minima_dropped_beyond_capacity data imax jmax min_max_length st :
  grid_ok data imax jmax →
  outputs_ok imax jmax min_max_length st →
  (size_of_int (min_index st) <? min_max_length) = false →
  ∃ st', cextrema data imax jmax min_max_length st = Some st' ∧
    min_index st' = min_index st ∧
    minima_x st' = minima_x st ∧ minima_y st' = minima_y st ∧
    (∀ idx, Store_extrema idx f_minus_one ∉ trace st') ∧
    (∀ i j, interior imax jmax i j → ¬ no_greater data jmax i j →
       grid (extrema st') jmax i j = grid (extrema st) jmax i j).
Proof.
  intros Hgrid (Hroom & Hcap & Hn & Htr) G.
  destruct (cextrema_total data imax jmax _ Hgrid Hcap st Hroom Hn)
    as [st' Hrun].
  exists st'. split; [done|].
  assert (Hinv : min_index st' = min_index st ∧
                 minima_x st' = minima_x st ∧ minima_y st' = minima_y st ∧
                 ∀ idx, Store_extrema idx f_minus_one ∉ trace st').
  { revert Hrun.
    apply (cextrema_inv data imax jmax min_max_length
      (λ s, min_index s = min_index st ∧
            minima_x s = minima_x st ∧ minima_y s = minima_y st ∧
            ∀ idx, Store_extrema idx f_minus_one ∉ trace s)).
    { simpl. rewrite Htr. do 3 (split; [done|]). intros idx H. in_log. }
    intros i j s fmax fmin s' (Hk & Hx & Hy & Hno) Hstep.
    destruct Hstep as [? _ _ _ _|? _ _|G' _ _ _| |]; simpl; try done.
    - do 3 (split; [done|]). intros idx H. in_log; try discriminate.
      by apply (Hno idx).
    - do 3 (split; [done|]). intros idx H. in_log; try discriminate.
      by apply (Hno idx).
    - rewrite Hk in G'. congruence. }
  destruct Hinv as (Hk & Hx & Hy & Hno). do 4 (split; [done|]).
  intros i j Hint Hgt.
  apply (untouched_cell data imax jmax min_max_length Hgrid st);
    try done; try (unfold interior in Hint; lia).
  intros v Hset.
  destruct (cextrema_map_events data imax jmax _ Hgrid st st' Htr Hrun
              _ _ Hset) as (a & b & Hab & E & Hc).
  apply (interior_inj imax jmax) in E as [-> ->]; [|done..].
  destruct Hc as [[_ ?]|(-> & _)]; [done|]. by apply (Hno _ Hset).
Qed.

Lemma minima_dropped_beyond_capacity_witness :
  ∃ st', cextrema pit_3x3 3 3 0 (fresh 9 0) = Some st' ∧
    min_index st' = min_index (fresh 9 0) ∧
    minima_x st' = minima_x (fresh 9 0) ∧
    minima_y st' = minima_y (fresh 9 0) ∧
    (∀ idx, Store_extrema idx f_minus_one ∉ trace st') ∧
    (∀ i j, interior 3 3 i j → ¬ no_greater pit_3x3 3 i j →
       grid (extrema st') 3 i j = grid (extrema (fresh 9 0)) 3 i j).
Proof. apply minima_dropped_beyond_capacity; concrete. Defined.

Lemma for_loop_S {A} (body : Z → A → option A) n i a :
  for_loop (S n) i body a =
  match body i a with
  | Some a' => for_loop n (i + 1) body a'
  | None => None
  end.
Proof. reflexivity. Qed.

(** A loop that returns has run its body at every index. *)
Lemma for_loop_visited {A} (body : Z → A → option A) n :
  ∀ lo a a', for_loop n lo body a = Some a' →
    ∀ i, lo <= i < lo + Z.of_nat n → ∃ x x', body i x = Some x'.
Proof.
  induction n as [|n IH]; intros lo a a' Hrun i Hi; [lia|].
  rewrite for_loop_S in Hrun.
  destruct (body lo a) as [a1|] eqn:E; [|discriminate].
  destruct (decide (i = lo)) as [->|Hne]; [by exists a, a1|].
  apply (IH (lo + 1) a1 a' Hrun). lia.
Qed.

Lemma visit_reads_centre data jmax min_max_length i j s s' :
  visit data jmax min_max_length i j s = Some s' →
  0 <= size_wrap (i * jmax + j) < Z.of_nat (length data).
Proof.
  intros (c & _ & _ & Hc & _)%visit_step. by apply load_Some in Hc.
Qed.

(** X11. Zero rows: [imax - 1] wraps around to [SIZE_MAX], the rows
    loop runs, and with at least 3 columns its first visit reads
    [data[jmax + 1]]. On a grid buffer of at most [jmax + 1] cells,
    the empty buffer of a grid of zero rows among them, the scan reads
    outside the buffer. *)
Theorem zero_rows_read_out_of_bounds data jmax min_max_length st :
  3 <= jmax → jmax + 1 <= SIZE_MAX →
  Z.of_nat (length data) <= jmax + 1 →
  cextrema data 0 jmax min_max_length st = None.
Proof.
  intros Hj Hmax Hlen. unfold cextrema, for_range.
  change (size_wrap (0 - 1)) with SIZE_MAX.
  destruct (Z.to_nat (SIZE_MAX - 1)) as [|n] eqn:En;
    [unfold SIZE_MAX in En; lia|].
  rewrite for_loop_S.
  destruct (scan_row data jmax min_max_length 1 _) as [s1|] eqn:Erow;
    [|done].
  exfalso. unfold scan_row, for_range in Erow.
  rewrite size_wrap_small in Erow by lia.
  destruct (Z.to_nat (jmax - 1 - 1)) as [|m] eqn:Em; [lia|].
  rewrite for_loop_S in Erow.
  destruct (visit data jmax min_max_length 1 1 _) as [s'|] eqn:Ev;
    [|discriminate].
  apply visit_reads_centre in Ev.
  rewrite size_wrap_small in Ev by lia. lia.
Qed.

Lemma zero_rows_read_out_of_bounds_witness :
  cextrema [] 0 3 4 (fresh 0 4) = None.
Proof.
  apply zero_rows_read_out_of_bounds;
    [lia|unfold SIZE_MAX; lia|simpl; lia].
Defined.

(** X12. Zero columns: [jmax - 1] wraps around to [SIZE_MAX], and with
    at least 3 rows the columns loop of the first row runs [j] up to
    [SIZE_MAX - 1]. A visit reads [data[j]] first (line 32), and at
    every column [j] at or beyond the size of the grid buffer that read
    is outside the buffer and the visit faults. So the scan never
    returns, whatever the buffers (a grid buffer of less than
    [SIZE_MAX] cells): an access of it leaves its buffer, that read at
    the latest. *)
Theorem zero_columns_never_returns data imax min_max_length st :
  3 <= imax <= SIZE_MAX →
  Z.of_nat (length data) < SIZE_MAX →
  cextrema data imax 0 min_max_length st = None ∧
  (∀ j s, Z.of_nat (length data) <= j <= SIZE_MAX →
     load data (size_wrap (1 * 0 + j)) = None ∧
     visit data 0 min_max_length 1 j s = None) ∧
  1 <= Z.max 1 (Z.of_nat (length data)) < size_wrap (0 - 1).
Proof.
  intros Hi Hlen.
  assert (Hread : ∀ j s, Z.of_nat (length data) <= j <= SIZE_MAX →
            load data (size_wrap (1 * 0 + j)) = None ∧
            visit data 0 min_max_length 1 j s = None).
  { intros j s Hj.
    assert (Hload : load data (size_wrap (1 * 0 + j)) = None).
    { apply load_None. rewrite size_wrap_small by lia. lia. }
    split; [done|]. unfold visit. by rewrite Hload. }
  split; [|split; [done|]].
  - unfold cextrema, for_range.
    rewrite size_wrap_small by lia.
    destruct (Z.to_nat (imax - 1 - 1)) as [|n] eqn:En; [lia|].
    rewrite for_loop_S.
    destruct (scan_row data 0 min_max_length 1 _) as [s1|] eqn:Erow;
      [|done].
    exfalso. unfold scan_row, for_range in Erow.
    change (size_wrap (0 - 1)) with SIZE_MAX in Erow.
    destruct (for_loop_visited _ _ _ _ _ Erow
                (Z.max 1 (Z.of_nat (length data))))
      as (x & x' & Hv); [unfold SIZE_MAX in *; lia|].
    destruct (Hread (Z.max 1 (Z.of_nat (length data))) x) as [_ Hnone];
      [lia|]. congruence.
  - change (size_wrap (0 - 1)) with SIZE_MAX. lia.
Qed.

Lemma zero_columns_never_returns_witness :
  cextrema (replicate 10 f_zero) 3 0 4 (fresh 0 4) = None ∧
  (∀ j s, Z.of_nat (length (replicate 10 f_zero)) <= j <= SIZE_MAX →
     load (replicate 10 f_zero) (size_wrap (1 * 0 + j)) = None ∧
     visit (replicate 10 f_zero) 0 4 1 j s = None) ∧
  1 <= Z.max 1 (Z.of_nat (length (replicate 10 f_zero)))
    < size_wrap (0 - 1).
Proof.
  apply zero_columns_never_returns;
    [unfold SIZE_MAX; lia|unfold SIZE_MAX; simpl; lia].
Defined.

(** X13. Where the minima count is, for every grid: with a capacity
    that is an [int] value and a non-negative [min_index], a scan that
    returns has advanced [min_index] by the number of entries it wrote
    to the minima list, while the [minima_length] it reports is 0. *)
Theorem min_index_counts_minima data imax jmax min_max_length st st' :
  is_size min_max_length → min_max_length <= INT_MAX →
  0 <= min_index st <= INT_MAX → trace st = [] →
  cextrema data imax jmax min_max_length st = Some st' →
  min_index st' = min_index st + minima_written (trace st') ∧
  minima_length st' = 0.
Proof.
  intros Hcap Hint Hn Htr Hrun.
  split; [|by apply (cextrema_minima_length data imax jmax
                       min_max_length st)].
  cut (min_index st' <= Z.max min_max_length (min_index st) ∧
       min_index st' = min_index st + minima_written (trace st'));
    [tauto|].
  revert Hrun.
  apply (cextrema_inv data imax jmax min_max_length
    (λ s, min_index s <= Z.max min_max_length (min_index st) ∧
          min_index s = min_index st + minima_written (trace s))).
  { simpl. rewrite Htr. unfold minima_written. simpl. lia. }
  intros i j s fmax fmin s' [Hle Hs] Hstep.
  assert (H0 : 0 <= minima_written (trace s))
    by (unfold minima_written; lia).
  destruct Hstep as [? _ _ _ _|? _ _|G _ _ _| |]; simpl;
    rewrite ?minima_written_snoc; simpl; rewrite ?Z.add_0_r; try done.
  apply Z.ltb_lt in G.
  rewrite size_of_int_nonneg in G
    by (unfold is_int, INT_MIN, INT_MAX in *; lia).
  rewrite int_wrap_small by (unfold is_int, INT_MIN, INT_MAX in *; lia).
  lia.
Qed.

Lemma min_index_counts_minima_witness :
  ∃ st', cextrema pit_3x3 3 3 4 (fresh 9 4) = Some st' ∧
    min_index st' = min_index (fresh 9 4) + minima_written (trace st') ∧
    minima_length st' = 0.
Proof.
  eexists. split.
  - vm_compute. reflexivity.
  - apply (min_index_counts_minima pit_3x3 3 3 4 (fresh 9 4));
      [concrete|concrete|concrete|reflexivity|vm_compute; reflexivity].
Defined.

(** ** Two scans in a row *)

(** With the minima list full on entry, no cell is stored [-1]. *)
Lemma no_minimum_when_full data imax jmax min_max_length st st' :
  trace st = [] →
  (size_of_int (min_index st) <? min_max_length) = false →
  cextrema data imax jmax min_max_length st = Some st' →
  ∀ idx, Store_extrema idx f_minus_one ∉ trace st'.
Proof.
  intros Htr G Hrun.
  cut (min_index st' = min_index st ∧
       ∀ idx, Store_extrema idx f_minus_one ∉ trace st'); [tauto|].
  revert Hrun.
  apply (cextrema_inv data imax jmax min_max_length
    (λ s, min_index s = min_index st ∧
          ∀ idx, Store_extrema idx f_minus_one ∉ trace s)).
  { simpl. rewrite Htr. split; [done|]. intros idx H. in_log. }
  intros i j s fmax fmin s' (Hk & Hno) Hstep.
  destruct Hstep as [? _ _ _ _|? _ _|G' _ _ _| |]; simpl; try done.
  - split; [done|]. intros idx H. in_log; try discriminate.
    by apply (Hno idx).
  - split; [done|]. intros idx H. in_log; try discriminate.
    by apply (Hno idx).
  - rewrite Hk in G'. congruence.
Qed.

(** C9 fails in the code. The scan resets [maxima_length] and
    [minima_length] on entry (lines 23-24) and never [min_index], in
    which its minima branch counts. So after a scan that has filled the
    minima list, a second scan of the same grid, into a map, lists and
    counters zeroed afresh, returns and stores no [-1]: every interior
    cell the first scan stored [-1] holds [-1] in the first map and 0 in
    the second. On a 3x3 grid with a pit in the middle and room for one
    entry, the first scan records the pit and the second records
    nothing. *)
Theorem rerun_differs :
  (∀ data imax jmax min_max_length st st1,
     grid_ok data imax jmax → outputs_ok imax jmax min_max_length st →
     cextrema data imax jmax min_max_length st = Some st1 →
     (size_of_int (min_index st1) <? min_max_length) = false →
     ∃ st2,
       cextrema data imax jmax min_max_length (rezero_arguments st1)
         = Some st2 ∧
       ∀ i j, interior imax jmax i j →
         sets jmax (trace st1) i j f_minus_one →
         ¬ sets jmax (trace st2) i j f_minus_one ∧
         grid (extrema st1) jmax i j = Some f_minus_one ∧
         grid (extrema st2) jmax i j = Some f_zero) ∧
  ∃ st1 st2,
    cextrema pit_3x3 3 3 1 (fresh 9 1) = Some st1 ∧
    cextrema pit_3x3 3 3 1 (rezero_arguments st1) = Some st2 ∧
    grid (extrema st1) 3 1 1 = Some f_minus_one ∧
    grid (extrema st2) 3 1 1 = Some f_zero ∧
    minima_x st1 = [1] ∧ minima_y st1 = [1] ∧
    minima_x st2 = [0] ∧ minima_y st2 = [0] ∧
    minima_written (trace st1) = 1 ∧ minima_written (trace st2) = 0 ∧
    min_index st1 = 1 ∧ min_index st2 = 1.
Proof.
  split.
  - intros data imax jmax min_max_length st st1 Hgrid
      (Hroom & Hcap & Hn & Htr) Hrun1 G.
    assert (Hsize : is_size min_max_length)
      by (destruct Hcap; unfold is_size; lia).
    destruct (cextrema_minima_written data imax jmax _ Hsize st st1 Hn Htr
                Hrun1) as (Hn1 & _).
    pose proof (cextrema_sizes data imax jmax _ st st1 Hrun1) as Hsz.
    assert (Hroom2 : room imax jmax min_max_length (rezero_arguments st1)).
    { unfold sizes in Hsz. injection Hsz as E1 E2 E3 E4 E5.
      unfold room, rezero_arguments in *. simpl.
      rewrite !length_replicate, E1, E2, E3, E4, E5. exact Hroom. }
    destruct (cextrema_total data imax jmax _ Hgrid Hcap
                (rezero_arguments st1) Hroom2 Hn1) as [st2 Hrun2].
    exists st2. split; [done|]. intros i j Hint Hset.
    pose proof (no_minimum_when_full data imax jmax min_max_length
                  (rezero_arguments st1) st2 eq_refl G Hrun2) as Hno.
    destruct (stored_minimum data imax jmax min_max_length st st1 i j
                Hgrid Htr Hroom Hrun1 Hint Hset) as (Hgt & _ & Hmap1).
    split; [apply Hno|]. split; [done|].
    rewrite (untouched_cell data imax jmax min_max_length Hgrid
               (rezero_arguments st1) st2 i j);
      try done; try (unfold interior in Hint; lia).
    + destruct (cell_index_range data imax jmax Hgrid i j) as [Hidx _];
        [unfold interior in Hint; lia..|].
      destruct Hroom2 as (Hlen & _).
      unfold grid, load. rewrite (proj2 (in_bounds_true _ _)) by lia.
      simpl in *. rewrite length_replicate in Hlen.
      apply lookup_replicate_2. lia.
    + intros v Hv.
      destruct (cextrema_map_events data imax jmax _ Hgrid
                  (rezero_arguments st1) st2 eq_refl Hrun2 _ _ Hv)
        as (a & b & Hab & E & Hc).
      apply (interior_inj imax jmax) in E as [-> ->]; [|done..].
      destruct Hc as [[_ ?]|(-> & _)]; [done|]. by apply (Hno _ Hv).
  - do 2 eexists. split; [by vm_compute|]. split; [by vm_compute|].
    by vm_compute.
Qed.
